(** * graphrag-exam-evaluation: correction workflow, graph store and UI logic

    A shallow embedding of the parts of the repository the specification
    talks about:

    - the exam-creation form, the submissions list and the progress bar of
      the Next.js frontend ([frontend/app/exams], [frontend/app/submissions],
      [frontend/components/ui/progress.tsx]);
    - the hybrid correction workflow and the graph storage step documented
      in the project README (the [MathCorrectionService.correct_question]
      listing and the CORRECTION WORKFLOW chart);
    - the parts of the Python backend that are not shipped with the sources
      (semantic agent boundary, answer normalizer, similarity search); these
      are modelled from the specification and are marked as such.

    JavaScript and Python numbers are modelled by exact rationals [Q]:
    every property below is about ordering, clamping and sums. *)

From Stdlib Require Import List String Ascii Bool Arith ZArith QArith Qminmax.
From Stdlib Require Import Lia Lqa Sorted Permutation.
From Stdlib Require Import DecimalString.
Import ListNotations.

Set Implicit Arguments.

(** ** Numbers *)

Module Num.

Local Open Scope Q_scope.

(** Clamping [x] into the interval [[lo, hi]]. *)
Definition clamp (lo hi x : Q) : Q :=
  if Qlt_le_dec x lo then lo else if Qlt_le_dec hi x then hi else x.

End Num.

(** ** JavaScript helpers shared by the pages *)

Module JS.

Local Open Scope char_scope.

(** [String.prototype.toLowerCase], on the ASCII range: the letters A to Z
    are mapped, every other byte is kept, so the lower-casing of letters
    outside ASCII is not covered. The properties of the filters take the
    outcome of the search as given and do not depend on letter case. *)
Definition lower_char (c : ascii) : ascii :=
  let n := nat_of_ascii c in
  if (65 <=? n)%nat && (n <=? 90)%nat then ascii_of_nat (n + 32) else c.

Fixpoint toLowerCase (s : string) : string :=
  match s with
  | EmptyString => EmptyString
  | String c s' => String (lower_char c) (toLowerCase s')
  end.

(** [String.prototype.includes]: [sub] occurs somewhere in [s]. *)
Fixpoint includes (s sub : string) : bool :=
  String.prefix sub s ||
  match s with
  | EmptyString => false
  | String _ s' => includes s' sub
  end.

(** [Array.prototype.reduce] with an initial value. *)
Definition reduce {A B : Type} (f : B -> A -> B) (init : B) (xs : list A) : B :=
  fold_left f xs init.

(** [Math.min] and [Math.max] on finite numbers. *)
Definition Math_min (a b : Q) : Q := if Qle_bool a b then a else b.
Definition Math_max (a b : Q) : Q := if Qle_bool a b then b else a.

End JS.

(** ** frontend/app/exams: the exam creation form ([NewExamPage]) *)

Module ExamForm.

Local Open Scope Q_scope.

Record QuestionForm : Type := mkQuestionForm {
  text : string;
  type : string;
  correct_answer : string;
  points : Q;
  topic : string;
  skills : list string
}.

(** [const totalPoints = questions.reduce((sum, q) => sum + q.points, 0)] *)
Definition totalPoints (questions : list QuestionForm) : Q :=
  JS.reduce (fun sum q => sum + points q) 0 questions.

(** [addQuestion]: a blank one-point calculation question is appended. *)
Definition blank_question : QuestionForm :=
  mkQuestionForm "" "calculation" "" 1 "numbers_operations" [].

Definition addQuestion (questions : list QuestionForm) : list QuestionForm :=
  questions ++ [blank_question].

(** The sum of [Question.points] over the questions of an exam, written
    as the data model states it. *)
Fixpoint sum_of_question_points (questions : list QuestionForm) : Q :=
  match questions with
  | [] => 0
  | q :: rest => points q + sum_of_question_points rest
  end.

End ExamForm.

(** ** frontend/app/submissions: the submissions list *)

Module SubmissionsPage.

Local Open Scope string_scope.

(** [item.score] as it arrives in the JSON payload: absent, [null], or a
    number. *)
Inductive score_value : Type :=
| ScoreUndefined
| ScoreNull
| ScoreNumber (n : Q).

(** [a !== null] *)
Definition strict_neq_null (v : score_value) : bool :=
  match v with
  | ScoreNull => false
  | _ => true
  end.

(** [a === null] *)
Definition strict_eq_null (v : score_value) : bool :=
  match v with
  | ScoreNull => true
  | _ => false
  end.

(** One entry of [data.submissions]. Optional chaining ([item.student?.name])
    yields [undefined] when a link is missing, modelled by [None]. *)
Record item : Type := mkItem {
  student_name : option string;
  exam_title : option string;
  score : score_value;
  status : option string
}.

(** [x?.toLowerCase().includes(searchQuery.toLowerCase())], with
    [undefined] read as falsy. *)
Definition field_matches (field : option string) (searchQuery : string) : bool :=
  match field with
  | Some x => JS.includes (JS.toLowerCase x) (JS.toLowerCase searchQuery)
  | None => false
  end.

Definition matchesSearch (searchQuery : string) (it : item) : bool :=
  field_matches (student_name it) searchQuery
  || field_matches (exam_title it) searchQuery.

Definition matchesStatus (statusFilter : string) (it : item) : bool :=
  (statusFilter =? "all")
  || ((statusFilter =? "corrected") && strict_neq_null (score it))
  || ((statusFilter =? "pending") && strict_eq_null (score it)).

Definition filteredSubmissions
    (statusFilter searchQuery : string) (submissions : list item) : list item :=
  filter (fun it => matchesSearch searchQuery it && matchesStatus statusFilter it)
         submissions.

(** [submissions.filter(s => s.score !== null).length] *)
Definition correctedCount (submissions : list item) : nat :=
  List.length (filter (fun s => strict_neq_null (score s)) submissions).

(** The same entry with another stored [Submission.status]. *)
Definition with_status (st : option string) (it : item) : item :=
  mkItem (student_name it) (exam_title it) (score it) st.

End SubmissionsPage.

(** ** frontend/components/ui/progress.tsx *)

Module ProgressBar.

Local Open Scope Q_scope.

(** The two numeric props; an omitted prop takes its default
    ([value = 0], [max = 100]). *)
Record ProgressProps : Type := mkProps {
  value : option Q;
  max : option Q
}.

Definition prop_or_default (p : option Q) (d : Q) : Q :=
  match p with Some x => x | None => d end.

(** [Math.min(100, Math.max(0, (value / max) * 100))]. The quotient of
    [Q] is the quotient of JavaScript for a divisor other than zero. *)
Definition percentage_of (value max : Q) : Q :=
  JS.Math_min 100 (JS.Math_max 0 ((value / max) * 100)).

Definition percentage (props : ProgressProps) : Q :=
  percentage_of (prop_or_default (value props) 0)
                (prop_or_default (max props) 100).

(** The fill width as the property words it: the ratio in percent,
    clamped into [[0, 100]]. *)
Definition clamped_ratio (value max : Q) : Q :=
  Num.clamp 0 100 ((value / max) * 100).

End ProgressBar.

(** ** The hybrid correction workflow (README, "Math Correction Agent") *)

Module Correction.

Local Open Scope Q_scope.

(** The error patterns of the README table. *)
Inductive ErrorType : Type :=
| calculation_error | conceptual_error | procedural_error
| careless_mistake | incomplete_answer | unit_error | sign_error
| decimal_error | fraction_error | order_of_operations.

Record Question : Type := mkQuestion {
  q_id : string;
  q_text : string;
  q_type : string;
  q_correct_answer : string;
  q_points : Q
}.

Record QuestionCorrection : Type := mkQC {
  points_earned : Q;
  points_possible : Q;
  is_correct : bool;
  student_answer : string;
  correct_answer : string;
  feedback : string;
  step_by_step_solution : string;
  error_types : list ErrorType;
  needs_manual_review : bool
}.

(** Calls that leave the service for the language model are recorded in
    a log threaded through the workflow. *)
Inductive event : Type :=
| AgentInvoked (question : Question) (student_answer : string).

Definition Workflow (A : Type) : Type := list event -> A * list event.

Definition ret {A : Type} (a : A) : Workflow A := fun log => (a, log).

Definition bind {A B : Type} (m : Workflow A) (k : A -> Workflow B) : Workflow B :=
  fun log => let (a, log') := m log in k a log'.

Definition emit (e : event) : Workflow unit := fun log => (tt, log ++ [e]).

Definition run {A : Type} (m : Workflow A) : A * list event := m [].

Notation "x <- m ;; k" := (bind m (fun x => k))
  (at level 61, m at next level, right associativity).

(** Branch [CORRECT] of the workflow chart: full points. *)
Definition full_points (question : Question) (answer : string) : QuestionCorrection :=
  mkQC (q_points question) (q_points question) true answer
       (q_correct_answer question) "" "" [] false.

Section Service.

(** Step 1 of the pipeline (exact match, numeric evaluation, SymPy
    equivalence); its body is not part of the listing. The arguments
    are the student answer and the correct answer. *)
Variable _compare_math_answers : string -> string -> bool.

(** Step 2, the AI correction agent, as a function of its inputs. *)
Variable ai_verdict : Question -> string -> QuestionCorrection.

Definition _ai_correct_question (question : Question) (answer : string)
  : Workflow QuestionCorrection :=
  _ <- emit (AgentInvoked question answer) ;;
  ret (ai_verdict question answer).

(** [MathCorrectionService.correct_question]:
<<
    is_correct = await self._compare_math_answers(student_answer, correct_answer)
    if not is_correct:
        ai_correction = await self._ai_correct_question(question, student_answer)
        return ai_correction
>>
    and, on the other branch of the chart, full points. *)
Definition correct_question (question : Question) (answer : string)
  : Workflow QuestionCorrection :=
  is_correct <- ret (_compare_math_answers answer (q_correct_answer question)) ;;
  if negb is_correct then
    ai_correction <- _ai_correct_question question answer ;;
    ret ai_correction
  else
    ret (full_points question answer).

(** "For each question" of the chart: the answers of a submission are
    corrected one after the other. *)
Fixpoint correct_answers (answers : list (Question * string))
  : Workflow (list QuestionCorrection) :=
  match answers with
  | [] => ret []
  | (question, answer) :: rest =>
      qc <- correct_question question answer ;;
      qcs <- correct_answers rest ;;
      ret (qc :: qcs)
  end.

End Service.

(** Stage 1 of the comparison on its own ("Exact Match: direct string
    comparison"), used to run the workflow on concrete answers. *)
Definition exact_match (student correct : string) : bool :=
  String.eqb student correct.

End Correction.

(** ** The semantic correction agent boundary *)

Module SemanticAgent.

Import Correction.
Local Open Scope string_scope.

(** JSON values, as the reply of the language-model service carries
    them. *)
Local Unset Elimination Schemes.
Inductive json : Type :=
| JNull
| JBool (b : bool)
| JNumber (n : Q)
| JString (s : string)
| JArray (items : list json)
| JObject (fields : list (string * json)).
Local Set Elimination Schemes.

(** What a call to the service can come back with: no answer at all, or
    a body that either is not JSON ([None]) or is a JSON value. *)
Inductive reply : Type :=
| Unreachable
| TimedOut
| Body (content : option json).

(** The two prompts of the contract: the correction request, and the
    "please return valid JSON only" request of the single retry. *)
Inductive prompt_kind : Type := CorrectionRequest | ValidJsonOnlyRetry.

Record prompt : Type := mkPrompt {
  kind : prompt_kind;
  question_text : string;
  prompt_correct_answer : string;
  prompt_student_answer : string;
  prompt_points_possible : Q;
  skill_context : list string
}.

Inductive error : Type :=
| ValidationError
| UpstreamServiceError
| GraphConstraintError
| GraphWriteError.

(** The fields of a reply that passed the schema, before any value is
    trusted. *)
Record raw_verdict : Type := mkRaw {
  raw_points_earned : Q;
  raw_is_correct : bool;
  raw_feedback : string;
  raw_solution : string;
  raw_error_types : list string
}.

Fixpoint lookup_field (name : string) (fields : list (string * json)) : option json :=
  match fields with
  | [] => None
  | (k, v) :: rest => if k =? name then Some v else lookup_field name rest
  end.

Fixpoint strings_of (items : list json) : option (list string) :=
  match items with
  | [] => Some []
  | JString s :: rest =>
      match strings_of rest with
      | Some ss => Some (s :: ss)
      | None => None
      end
  | _ => None
  end.

(** Modelled from the spec: the schema check of section 4.3 (the backend
    module making the call is not among the sources). A reply conforms
    when it is a JSON object carrying [points_earned] (number),
    [is_correct] (boolean), [feedback] and [step_by_step_solution] (text)
    and [error_types] (array of strings). *)
Definition validate (r : reply) : option raw_verdict :=
  match r with
  | Body (Some (JObject fields)) =>
      match lookup_field "points_earned" fields,
            lookup_field "is_correct" fields,
            lookup_field "feedback" fields,
            lookup_field "step_by_step_solution" fields,
            lookup_field "error_types" fields with
      | Some (JNumber p), Some (JBool c), Some (JString f), Some (JString sol),
        Some (JArray ets) =>
          match strings_of ets with
          | Some names => Some (mkRaw p c f sol names)
          | None => None
          end
      | _, _, _, _, _ => None
      end
  | _ => None
  end.

Definition error_type_of_name (name : string) : option ErrorType :=
  if name =? "calculation_error" then Some calculation_error
  else if name =? "conceptual_error" then Some conceptual_error
  else if name =? "procedural_error" then Some procedural_error
  else if name =? "careless_mistake" then Some careless_mistake
  else if name =? "incomplete_answer" then Some incomplete_answer
  else if name =? "unit_error" then Some unit_error
  else if name =? "sign_error" then Some sign_error
  else if name =? "decimal_error" then Some decimal_error
  else if name =? "fraction_error" then Some fraction_error
  else if name =? "order_of_operations" then Some order_of_operations
  else None.

(** Modelled from the spec: section 6, "error_types filtered to the known
    enum, unknown values are dropped". *)
Fixpoint known_error_types (names : list string) : list ErrorType :=
  match names with
  | [] => []
  | n :: rest =>
      match error_type_of_name n with
      | Some e => e :: known_error_types rest
      | None => known_error_types rest
      end
  end.

(** Modelled from the spec: section 6, "points_earned is clamped to
    [0, points_possible]", and section 4.3, "is_correct (points_earned ==
    points_possible)". *)
Definition trusted_correction (question : Question) (answer : string)
    (v : raw_verdict) : QuestionCorrection :=
  let earned := Num.clamp 0 (q_points question) (raw_points_earned v) in
  mkQC earned (q_points question) (Qeq_bool earned (q_points question))
       answer (q_correct_answer question)
       (raw_feedback v) (raw_solution v)
       (known_error_types (raw_error_types v)) false.

(** Modelled from the spec: section 7, the degraded result an
    UpstreamServiceError is recovered into: flagged for manual review,
    zero provisional credit. *)
Definition manual_review (question : Question) (answer : string) : QuestionCorrection :=
  mkQC 0 (q_points question) false answer (q_correct_answer question)
       "" "" [] true.

Section Boundary.

(** The external language-model service. *)
Variable service : prompt -> reply.

(** Supplied by the context assembler. *)
Variable context_for : Question -> list string.

Definition prompt_for (k : prompt_kind) (question : Question) (answer : string) : prompt :=
  mkPrompt k (q_text question) (q_correct_answer question) answer
           (q_points question) (context_for question).

(** Modelled from the spec: sections 4.3 and 6. The reply must validate;
    on failure one retry with the valid-JSON-only prompt is made, and a
    second failure is an UpstreamServiceError. *)
Definition semantic_verdict (question : Question) (answer : string)
  : error + raw_verdict :=
  match validate (service (prompt_for CorrectionRequest question answer)) with
  | Some v => inr v
  | None =>
      match validate (service (prompt_for ValidJsonOnlyRetry question answer)) with
      | Some v => inr v
      | None => inl UpstreamServiceError
      end
  end.

(** Modelled from the spec: the body of [_ai_correct_question], which the
    README listing calls but does not show. *)
Definition ai_correct (question : Question) (answer : string) : QuestionCorrection :=
  match semantic_verdict question answer with
  | inr v => trusted_correction question answer v
  | inl _ => manual_review question answer
  end.

End Boundary.






End SemanticAgent.

(** ** The knowledge graph and the storage step of the correction workflow *)

Module Graph.

Local Open Scope nat_scope.
Local Open Scope string_scope.

(** Node labels and relationship types of the README schema. *)
Inductive label : Type :=
| Student | Exam | Question | Skill | Topic
| Submission | Answer | Correction | QuestionCorrection | ErrorType.

Inductive rel_type : Type :=
| SUBMITTED | FOR_EXAM | HAS_ANSWER | ANSWERS | HAS_QUESTION
| TESTS_SKILL | BELONGS_TO | HAS_CORRECTION | INCLUDES | HAS_ERROR.

Definition label_eqb (a b : label) : bool :=
  match a, b with
  | Student, Student | Exam, Exam | Question, Question | Skill, Skill
  | Topic, Topic | Submission, Submission | Answer, Answer
  | Correction, Correction | QuestionCorrection, QuestionCorrection
  | ErrorType, ErrorType => true
  | _, _ => false
  end.

Definition rel_type_eqb (a b : rel_type) : bool :=
  match a, b with
  | SUBMITTED, SUBMITTED | FOR_EXAM, FOR_EXAM | HAS_ANSWER, HAS_ANSWER
  | ANSWERS, ANSWERS | HAS_QUESTION, HAS_QUESTION | TESTS_SKILL, TESTS_SKILL
  | BELONGS_TO, BELONGS_TO | HAS_CORRECTION, HAS_CORRECTION
  | INCLUDES, INCLUDES | HAS_ERROR, HAS_ERROR => true
  | _, _ => false
  end.

(** A node carries its label and its key property ([id] or [name]), the
    part of a node the chart's CREATE and MERGE steps decide. The other
    properties of the schema (the status of a Submission among them) are
    not part of this record; [Repository] has the status. The store
    identifies a node by its position in [nodes]. *)
Record node : Type := mkNode {
  node_label : label;
  node_key : string
}.

Record rel : Type := mkRel {
  rel_from : nat;
  rel_kind : rel_type;
  rel_to : nat
}.

Record graph : Type := mkGraph {
  nodes : list node;
  rels : list rel
}.

Definition empty : graph := mkGraph [] [].

Definition is_node (l : label) (key : string) (n : node) : bool :=
  label_eqb (node_label n) l && (node_key n =? key).

(** [MATCH (n:l {key})]: the position of the first such node. *)
Fixpoint find_from (l : label) (key : string) (ns : list node) (pos : nat) : option nat :=
  match ns with
  | [] => None
  | n :: rest => if is_node l key n then Some pos else find_from l key rest (S pos)
  end.

Definition match_node (l : label) (key : string) (g : graph) : option nat :=
  find_from l key (nodes g) 0.

(** [CREATE (n:l {key})]: always a new node; its position is returned. *)
Definition create_node (l : label) (key : string) (g : graph) : nat * graph :=
  (List.length (nodes g), mkGraph (nodes g ++ [mkNode l key]) (rels g)).

(** [MERGE (n:l {key})]: the existing node if there is one, else a new
    one. *)
Definition merge_node (l : label) (key : string) (g : graph) : nat * graph :=
  match match_node l key g with
  | Some pos => (pos, g)
  | None => create_node l key g
  end.

(** [CREATE (a)-[:k]->(b)] *)
Definition create_rel (a : nat) (k : rel_type) (b : nat) (g : graph) : graph :=
  mkGraph (nodes g) (rels g ++ [mkRel a k b]).

(** What the correction run hands to the storage step: the id of the new
    Correction, and per answer the id of its QuestionCorrection with the
    names of the identified errors. *)
Record question_result : Type := mkResult {
  qc_id : string;
  qc_errors : list string
}.

Record correction_data : Type := mkData {
  correction_id : string;
  question_results : list question_result
}.

(** [MERGE (ErrorType)] and [CREATE [:HAS_ERROR]] for the errors of one
    QuestionCorrection. *)
Fixpoint link_errors (qc : nat) (names : list string) (g : graph) : graph :=
  match names with
  | [] => g
  | name :: rest =>
      let (e, g1) := merge_node ErrorType name g in
      link_errors qc rest (create_rel qc HAS_ERROR e g1)
  end.

(** [CREATE (QuestionCorrection) for each answer]. The chart names no
    relationship for the new node; the README schema (lines 200-207) has
    [(Correction)-[:INCLUDES]->(QuestionCorrection)], which is used here. *)
Fixpoint store_question_results (c : nat) (results : list question_result)
    (g : graph) : graph :=
  match results with
  | [] => g
  | r :: rest =>
      let (qc, g1) := create_node QuestionCorrection (qc_id r) g in
      let g2 := create_rel c INCLUDES qc g1 in
      store_question_results c rest (link_errors qc (qc_errors r) g2)
  end.

(** Step [2] of the CORRECTION WORKFLOW chart, STORE CORRECTION RESULTS
    IN GRAPH:
<<
    CREATE (Correction) node
    CREATE [:HAS_CORRECTION] from Submission
    CREATE (QuestionCorrection) for each answer
    MERGE (ErrorType) nodes for identified errors
    CREATE [:HAS_ERROR] relationships
>>
    When no Submission node has the given id nothing is matched and
    nothing is written. This is the creation of nodes and relationships
    as the chart draws it, and no more: the chart does not say what the
    step does with the properties of the Submission, nor what it does for
    a Submission that already has a Correction. *)
Definition store_correction (submission_id : string) (data : correction_data)
    (g : graph) : graph :=
  match match_node Submission submission_id g with
  | None => g
  | Some s =>
      let (c, g1) := create_node Correction (correction_id data) g in
      let g2 := create_rel s HAS_CORRECTION c g1 in
      store_question_results c (question_results data) g2
  end.

(** [CREATE (Submission {id})] at submission time. *)
Definition create_submission (submission_id : string) (g : graph) : graph :=
  snd (create_node Submission submission_id g).

(** The operations that change the part of the graph under study, and the
    states reachable with them from the empty graph. Each operation is one
    write; a concurrent execution is one of their interleavings. *)
Inductive operation : Type :=
| CreateSubmission (submission_id : string)
| StoreCorrection (submission_id : string) (data : correction_data).

Definition apply (op : operation) (g : graph) : graph :=
  match op with
  | CreateSubmission sid => create_submission sid g
  | StoreCorrection sid data => store_correction sid data g
  end.

Definition execute (ops : list operation) (g : graph) : graph :=
  fold_left (fun g op => apply op g) ops g.

Definition reachable (g : graph) : Prop :=
  exists ops, g = execute ops empty.

Definition has_label (l : label) (pos : nat) (g : graph) : bool :=
  match nth_error (nodes g) pos with
  | Some n => label_eqb (node_label n) l
  | None => false
  end.

Definition has_key (key : string) (pos : nat) (g : graph) : bool :=
  match nth_error (nodes g) pos with
  | Some n => node_key n =? key
  | None => false
  end.

(** [MATCH (s:Submission {id})-[:HAS_CORRECTION]->(c:Correction)]: the
    Correction nodes linked to a submission. *)
Definition links_correction (submission_id : string) (g : graph) (r : rel) : bool :=
  rel_type_eqb (rel_kind r) HAS_CORRECTION
  && has_label Submission (rel_from r) g
  && has_key submission_id (rel_from r) g
  && has_label Correction (rel_to r) g.

Definition corrections_of (submission_id : string) (g : graph) : list nat :=
  map rel_to (filter (links_correction submission_id g) (rels g)).

(** The first two writes of the storage step: the Correction node and
    its [HAS_CORRECTION] relationship. *)
Definition linked (s : nat) (data : correction_data) (g : graph) : graph :=
  create_rel s HAS_CORRECTION (List.length (nodes g))
    (snd (create_node Correction (correction_id data) g)).

(** Every relationship joins two nodes of the graph. *)
Definition in_range (g : graph) (r : rel) : Prop :=
  rel_from r < List.length (nodes g) /\ rel_to r < List.length (nodes g).

Definition well_formed (g : graph) : Prop := Forall (in_range g) (rels g).

(** [g'] is [g] with further nodes and further relationships, none of
    them a [HAS_CORRECTION]. *)
Definition grows (g g' : graph) : Prop :=
  exists ns rs,
    nodes g' = (nodes g ++ ns)%list
    /\ rels g' = (rels g ++ rs)%list
    /\ Forall (fun r => rel_type_eqb (rel_kind r) HAS_CORRECTION = false
                        /\ in_range g' r) rs.

End Graph.

(** ** Similarity search over the question embeddings *)

Module VectorIndex.

Local Open Scope Q_scope.

Definition embedding : Type := list Q.

(** A question as the vector index holds it. *)
Record indexed_question : Type := mkIndexed {
  question_id : string;
  question_embedding : embedding
}.

Fixpoint dot (a b : embedding) : Q :=
  match a, b with
  | x :: a', y :: b' => x * y + dot a' b'
  | _, _ => 0
  end.

(** A rational stand-in for the cosine [c] of the angle between two
    vectors, [c * |c|], which needs no square root. It serves to run the
    search on concrete vectors. *)
Definition signed_square_cosine (a b : embedding) : Q :=
  let d := dot a b in
  (if Qle_bool 0 d then d * d else - (d * d)) / (dot a a * dot b b).

Section Search.

(** The similarity function of the index
    ([vector.similarity_function: 'cosine'] in the README). *)
Variable cosine_similarity : embedding -> embedding -> Q.

Variable query : embedding.

Definition score (e : indexed_question) : Q :=
  cosine_similarity query (question_embedding e).

(** Modelled from the spec: the ranking of section 4.4 (the repository
    module is not among the sources): higher similarity first, equal
    similarity by question id ascending. *)
Definition ranks_before (a b : indexed_question) : bool :=
  match score a ?= score b with
  | Gt => true
  | Lt => false
  | Eq => String.leb (question_id a) (question_id b)
  end.

Fixpoint insert_ranked (x : indexed_question) (l : list indexed_question)
  : list indexed_question :=
  match l with
  | [] => [x]
  | y :: rest =>
      if ranks_before x y then x :: l else y :: insert_ranked x rest
  end.

Fixpoint rank (l : list indexed_question) : list indexed_question :=
  match l with
  | [] => []
  | x :: rest => insert_ranked x (rank rest)
  end.

(** Modelled from the spec: [findSimilarQuestions(embedding, k)], "up to
    k questions ranked by similarity, ties broken by question id
    ascending". *)
Definition findSimilarQuestions (k : nat) (index : list indexed_question)
  : list indexed_question :=
  firstn k (rank index).

(** [a] may stand directly before [b] in a result. *)
Definition in_rank_order (a b : indexed_question) : Prop :=
  score b < score a
  \/ (score a == score b
      /\ String.leb (question_id a) (question_id b) = true).

Definition at_least_as_similar (a b : indexed_question) : Prop :=
  score b <= score a.

End Search.

End VectorIndex.

(** ** The answer normalizer *)

Module Normalizer.

Local Open Scope char_scope.

Inductive question_type : Type :=
| calculation | word_problem | fill_blank | true_false | multiple_choice.

(** The character classes the pipeline tells apart: white space, the
    characters of a numeral (digits and the decimal separators [.] and
    [,]), the characters of a word (letters, and the bytes of non-ASCII
    letters), and symbols (operators, the fraction bar, punctuation). *)
Inductive char_class : Type := Blank | Numeric | Letter | Sign.

Definition classify (c : ascii) : char_class :=
  let n := nat_of_ascii c in
  if ((n =? 32) || (n =? 9) || (n =? 10) || (n =? 13))%nat then Blank
  else if ((48 <=? n) && (n <=? 57) || (n =? 46) || (n =? 44))%nat then Numeric
  else if ((65 <=? n) && (n <=? 90) || (97 <=? n) && (n <=? 122)
           || (128 <=? n))%nat then Letter
  else Sign.

Definition is_digit (c : ascii) : bool :=
  let n := nat_of_ascii c in ((48 <=? n) && (n <=? 57))%nat.

(** Lowercase, and the decimal comma read as a point. *)
Definition canonical_char (c : ascii) : ascii :=
  if Ascii.eqb c "," then "." else JS.lower_char c.

Inductive token : Type :=
| Number (digits : list ascii)
| Word (letters : list ascii)
| Symbol (c : ascii).

(** One character in front of what has been read so far. The flag tells
    whether the first token stands directly behind, so that a character
    of its kind continues it. *)
Definition lex_step (c : ascii) (state : bool * list token) : bool * list token :=
  let (joined, ts) := state in
  match classify c with
  | Blank => (false, ts)
  | Sign => (false, Symbol c :: ts)
  | Numeric =>
      match joined, ts with
      | true, Number ds :: rest => (true, Number (canonical_char c :: ds) :: rest)
      | _, _ => (true, Number [canonical_char c] :: ts)
      end
  | Letter =>
      match joined, ts with
      | true, Word ls :: rest => (true, Word (canonical_char c :: ls) :: rest)
      | _, _ => (true, Word [canonical_char c] :: ts)
      end
  end.

Fixpoint lex (cs : list ascii) : bool * list token :=
  match cs with
  | [] => (false, [])
  | c :: rest => lex_step c (lex rest)
  end.

(** A numeral is a run of digits, optionally followed by a point and a
    further run of digits. *)
Fixpoint digits_only (ds : list ascii) : bool :=
  match ds with
  | [] => true
  | d :: rest => is_digit d && digits_only rest
  end.

Fixpoint fraction_part (ds : list ascii) : bool :=
  match ds with
  | [] => true
  | d :: rest =>
      if is_digit d then fraction_part rest
      else match rest with
           | [] => false
           | _ :: _ => digits_only rest
           end
  end.

Definition numeral (ds : list ascii) : bool :=
  match ds with
  | [] => false
  | d :: rest => is_digit d && fraction_part rest
  end.

Definition parses (t : token) : bool :=
  match t with
  | Number ds => numeral ds
  | _ => true
  end.

Definition parse (cs : list ascii) : option (list token) :=
  let ts := snd (lex cs) in
  if forallb parses ts then Some ts else None.

Definition text_of (t : token) : list ascii :=
  match t with
  | Number ds => ds
  | Word ls => ls
  | Symbol c => [c]
  end.

(** Numbers and words are set apart by one space; a symbol is written
    against its neighbours ([1/2], [x+1]). *)
Definition spaced (a b : token) : bool :=
  match a, b with
  | Symbol _, _ | _, Symbol _ => false
  | _, _ => true
  end.

Fixpoint render (ts : list token) : list ascii :=
  match ts with
  | [] => []
  | t :: rest =>
      text_of t ++
      match rest with
      | [] => []
      | t' :: _ => (if spaced t t' then [" "] else []) ++ render rest
      end
  end.

Definition normalize_chars (cs : list ascii) : list ascii :=
  match parse cs with
  | Some ts => render ts
  | None => []
  end.

(** Modelled from the spec: the answer normalizer of section 4.1 (the
    backend module is not among the sources). One fixed pipeline for
    every question type: words are trimmed and lowercased, decimal
    separators become [.], a unit written against a number becomes a
    token of its own, white space is collapsed, a fraction is written
    [a/b]; input that does not parse gives the empty canonical form. *)
Definition normalize (raw : string) (ty : question_type) : string :=
  string_of_list_ascii (normalize_chars (list_ascii_of_string raw)).

(** The tokens the lexer builds: non-empty runs of canonical characters
    of one class. *)
Definition canonical_in (k : char_class) (c : ascii) : Prop :=
  classify c = k /\ canonical_char c = c.

Definition well_formed (t : token) : Prop :=
  match t with
  | Number ds => ds <> [] /\ Forall (canonical_in Numeric) ds
  | Word ls => ls <> [] /\ Forall (canonical_in Letter) ls
  | Symbol c => classify c = Sign
  end.

(** The flag the lexer returns on the rendering of [ts]. *)
Definition head_joins (ts : list token) : bool :=
  match ts with
  | [] => false
  | Symbol _ :: _ => false
  | _ :: _ => true
  end.

End Normalizer.

(** ** Sample data used to run the definitions *)

Module Samples.

Local Open Scope string_scope.

Definition simplify_question : Correction.Question :=
  Correction.mkQuestion "q-1" "Simplify x + 1" "calculation" "x+1" 2.

Definition sum_question : Correction.Question :=
  Correction.mkQuestion "q-2" "Compute 40 + 2" "calculation" "42" 5.

(** An agent that grants one point of partial credit. *)
Definition one_point_agent (question : Correction.Question) (answer : string)
  : Correction.QuestionCorrection :=
  Correction.mkQC 1 (Correction.q_points question) false answer
    (Correction.q_correct_answer question) "partly right" "" [] false.

(** A service whose replies are never JSON. *)
Definition garbled_service (p : SemanticAgent.prompt) : SemanticAgent.reply :=
  SemanticAgent.Body None.

(** A service that answers the schema but grants seven points whatever
    the question is worth. *)
Definition generous_service (p : SemanticAgent.prompt) : SemanticAgent.reply :=
  SemanticAgent.Body (Some (SemanticAgent.JObject
    [("points_earned", SemanticAgent.JNumber 7);
     ("is_correct", SemanticAgent.JBool true);
     ("feedback", SemanticAgent.JString "well done");
     ("step_by_step_solution", SemanticAgent.JString "");
     ("error_types", SemanticAgent.JArray
        [SemanticAgent.JString "unit_error"; SemanticAgent.JString "typo"])])).

Definition no_context (question : Correction.Question) : list string := [].

Definition first_run : Graph.correction_data :=
  Graph.mkData "corr-1" [Graph.mkResult "qc-1" ["unit_error"]].

Definition second_run : Graph.correction_data :=
  Graph.mkData "corr-2" [Graph.mkResult "qc-2" ["unit_error"; "sign_error"]].

Definition one_submission : Graph.graph :=
  Graph.execute [Graph.CreateSubmission "sub-1"] Graph.empty.

Definition corrected_twice : Graph.graph :=
  Graph.execute [Graph.CreateSubmission "sub-1";
                 Graph.StoreCorrection "sub-1" first_run;
                 Graph.StoreCorrection "sub-1" second_run] Graph.empty.

Definition small_index : list VectorIndex.indexed_question :=
  [VectorIndex.mkIndexed "q3" [1; 0]; VectorIndex.mkIndexed "q1" [1; 0];
   VectorIndex.mkIndexed "q2" [0; 1]; VectorIndex.mkIndexed "q0" [1; 1];
   VectorIndex.mkIndexed "q5" [-1; 0]]%Q.

Definition failed_unscored : SubmissionsPage.item :=
  SubmissionsPage.mkItem (Some "Lina") (Some "Fractions") SubmissionsPage.ScoreNull
    (Some "failed").

Definition pending_unscored : SubmissionsPage.item :=
  SubmissionsPage.mkItem (Some "Marc") (Some "Fractions") SubmissionsPage.ScoreNull
    (Some "pending").

Definition scored : SubmissionsPage.item :=
  SubmissionsPage.mkItem (Some "Nora") (Some "Fractions")
    (SubmissionsPage.ScoreNumber 80) (Some "corrected").


End Samples.

(** ** More of the JavaScript library *)

Module JSLib.

Local Open Scope string_scope.

(** A text is held as the bytes of its UTF-8 encoding. [code_points] reads
    the code points back; a byte that starts no well-formed sequence reads
    as U+FFFD. *)
Definition byte (c : ascii) : N := N_of_ascii c.

Definition continuation (c : ascii) : bool :=
  ((128 <=? byte c) && (byte c <=? 191))%N.

Definition low_bits (c : ascii) : N := (byte c - 128)%N.

Fixpoint code_points (s : string) : list N :=
  match s with
  | EmptyString => []
  | String b0 r0 =>
      let n0 := byte b0 in
      if (n0 <? 128)%N then n0 :: code_points r0
      else
        match r0 with
        | EmptyString => [65533%N]
        | String b1 r1 =>
            if ((192 <=? n0) && (n0 <? 224))%N && continuation b1 then
              ((n0 - 192) * 64 + low_bits b1)%N :: code_points r1
            else
              match r1 with
              | EmptyString => 65533%N :: code_points r0
              | String b2 r2 =>
                  if ((224 <=? n0) && (n0 <? 240))%N
                     && continuation b1 && continuation b2 then
                    ((n0 - 224) * 4096 + low_bits b1 * 64 + low_bits b2)%N
                    :: code_points r2
                  else
                    match r2 with
                    | EmptyString => 65533%N :: code_points r0
                    | String b3 r3 =>
                        if ((240 <=? n0) && (n0 <? 248))%N && continuation b1
                           && continuation b2 && continuation b3 then
                          ((n0 - 240) * 262144 + low_bits b1 * 4096
                           + low_bits b2 * 64 + low_bits b3)%N
                          :: code_points r3
                        else 65533%N :: code_points r0
                    end
              end
        end
  end.

(** The code points [String.prototype.trim] removes: the WhiteSpace and
    LineTerminator characters of ECMAScript. *)
Definition is_white_space (cp : N) : bool :=
  (((9 <=? cp) && (cp <=? 13)) || (cp =? 32) || (cp =? 160) || (cp =? 5760)
   || ((8192 <=? cp) && (cp <=? 8202)) || (cp =? 8232) || (cp =? 8233)
   || (cp =? 8239) || (cp =? 8287) || (cp =? 12288) || (cp =? 65279))%N.

Fixpoint trimStart (cps : list N) : list N :=
  match cps with
  | [] => []
  | cp :: rest => if is_white_space cp then trimStart rest else cps
  end.

Fixpoint trimEnd (cps : list N) : list N :=
  match cps with
  | [] => []
  | cp :: rest =>
      match trimEnd rest with
      | [] => if is_white_space cp then [] else [cp]
      | kept => cp :: kept
      end
  end.

(** [s.trim()], as the code points of the trimmed text. *)
Definition trim (s : string) : list N := trimEnd (trimStart (code_points s)).

(** A trimmed text in a condition: the empty text is falsy. *)
Definition nonempty (cps : list N) : bool :=
  match cps with
  | [] => false
  | _ :: _ => true
  end.

(** A string in a condition: the empty string is falsy. *)
Definition truthy (s : string) : bool := negb (s =? "").

(** [Array.prototype.filter] with a callback that reads the index. *)
Fixpoint filter_from {A : Type} (keep : A -> nat -> bool) (i : nat) (xs : list A)
  : list A :=
  match xs with
  | [] => []
  | x :: rest =>
      if keep x i then x :: filter_from keep (S i) rest
      else filter_from keep (S i) rest
  end.

Definition filter_indexed {A : Type} (keep : A -> nat -> bool) (xs : list A) : list A :=
  filter_from keep 0 xs.

(** [Array.prototype.includes] on strings. *)
Definition array_includes (xs : list string) (x : string) : bool :=
  existsb (String.eqb x) xs.

(** [xs[index] = x] on a copy of the array, for an index within it. *)
Definition replace_at {A : Type} (index : nat) (x : A) (xs : list A) : list A :=
  (firstn index xs ++ x :: skipn (S index) xs)%list.

(** A number in a template literal. *)
Definition string_of_nat (n : nat) : string :=
  NilEmpty.string_of_uint (Nat.to_uint n).

(** One of the code points of the text is not white space. *)
Definition has_visible_char (s : string) : bool :=
  existsb (fun cp => negb (is_white_space cp)) (code_points s).

Inductive exception : Type := TypeError.

End JSLib.

(** ** frontend/app/exams: the other handlers of [NewExamPage] *)

Module NewExamPage.

Import ExamForm.
Local Open Scope string_scope.

(** [setQuestions(questions.filter((_, i) => i !== index))] *)
Definition removeQuestion (index : nat) (questions : list QuestionForm)
  : list QuestionForm :=
  JSLib.filter_indexed (fun _ i => negb (i =? index)%nat) questions.

(** The [field] and [value] of [updateQuestion], for the fields the form
    edits with it. *)
Inductive field_value : Type :=
| text_value (v : string)
| type_value (v : string)
| correct_answer_value (v : string)
| points_value (v : Q)
| topic_value (v : string).

(** [{ ...q, [field]: value }] *)
Definition assign (q : QuestionForm) (fv : field_value) : QuestionForm :=
  match fv with
  | text_value v =>
      mkQuestionForm v (type q) (correct_answer q) (points q) (topic q) (skills q)
  | type_value v =>
      mkQuestionForm (text q) v (correct_answer q) (points q) (topic q) (skills q)
  | correct_answer_value v =>
      mkQuestionForm (text q) (type q) v (points q) (topic q) (skills q)
  | points_value v =>
      mkQuestionForm (text q) (type q) (correct_answer q) v (topic q) (skills q)
  | topic_value v =>
      mkQuestionForm (text q) (type q) (correct_answer q) (points q) v (skills q)
  end.

(** [updateQuestion]:
<<
    const updated = [...questions]
    updated[index] = { ...updated[index], [field]: value }
    setQuestions(updated)
>>
    The form calls it with the index of a question it shows. For an index
    past the end JavaScript would extend the array with an object holding
    the one field only, which is no [QuestionForm]; the model answers
    [None] there. *)
Definition updateQuestion (index : nat) (fv : field_value)
    (questions : list QuestionForm) : option (list QuestionForm) :=
  match nth_error questions index with
  | Some q => Some (JSLib.replace_at index (assign q fv) questions)
  | None => None
  end.

Definition with_skills (q : QuestionForm) (new_skills : list string) : QuestionForm :=
  mkQuestionForm (text q) (type q) (correct_answer q) (points q) (topic q) new_skills.

(** [toggleSkill]:
<<
    const updated = [...questions]
    const skills = updated[index].skills
    if (skills.includes(skill)) {
      updated[index].skills = skills.filter((s) => s !== skill)
    } else {
      updated[index].skills = [...skills, skill]
    }
    setQuestions(updated)
>>
    Reading [.skills] of a missing entry throws a TypeError. *)
Definition toggleSkill (index : nat) (skill : string)
    (questions : list QuestionForm) : JSLib.exception + list QuestionForm :=
  match nth_error questions index with
  | None => inl JSLib.TypeError
  | Some q =>
      let current := skills q in
      let toggled :=
        if JSLib.array_includes current skill
        then filter (fun s => negb (s =? skill)) current
        else (current ++ [skill])%list in
      inr (JSLib.replace_at index (with_skills q toggled) questions)
  end.

(** The state of the form and what [handleSubmit] does with it. *)
Record form_state : Type := mkForm {
  title : string;
  gradeLevel : Q;
  durationMinutes : Q;
  questions : list QuestionForm
}.

Record exam_payload : Type := mkPayload {
  payload_title : string;
  payload_grade_level : Q;
  payload_subject : string;
  payload_duration_minutes : Q;
  payload_questions : list QuestionForm
}.

Inductive outcome : Type :=
| toast_error (message : string)
| mutate (payload : exam_payload).

(** The loop of [handleSubmit]: the index of the first question whose text
    or correct answer is blank. *)
Fixpoint first_incomplete (i : nat) (qs : list QuestionForm) : option nat :=
  match qs with
  | [] => None
  | q :: rest =>
      if negb (JSLib.nonempty (JSLib.trim (text q)))
         || negb (JSLib.nonempty (JSLib.trim (correct_answer q)))
      then Some i
      else first_incomplete (S i) rest
  end.

Definition handleSubmit (st : form_state) : outcome :=
  if negb (JSLib.nonempty (JSLib.trim (title st))) then
    toast_error "Please enter a title"
  else if (List.length (questions st) =? 0)%nat then
    toast_error "Please add at least one question"
  else
    match first_incomplete 0 (questions st) with
    | Some i =>
        toast_error ("Please complete question " ++ JSLib.string_of_nat (i + 1))
    | None =>
        mutate (mkPayload (title st) (gradeLevel st) "mathematics"
                  (durationMinutes st) (questions st))
    end.

(** A question the form accepts: its text and its correct answer hold a
    character that is not white space. *)
Definition complete (q : QuestionForm) : bool :=
  JSLib.has_visible_char (text q) && JSLib.has_visible_char (correct_answer q).

End NewExamPage.

(** ** frontend/app/submissions: statistics and status display *)

Module SubmissionsList.

Import SubmissionsPage.
Local Open Scope string_scope.

(** [s.score || 0] *)
Definition score_or_zero (v : score_value) : Q :=
  match v with
  | ScoreNumber n => n
  | _ => 0%Q
  end.

(** [submissions.length > 0
      ? submissions.reduce((acc, s) => acc + (s.score || 0), 0) / submissions.length
      : 0] *)
Definition avgScore (submissions : list item) : Q :=
  if (0 <? List.length submissions)%nat then
    (JS.reduce (fun acc s => acc + score_or_zero (score s)) 0 submissions
     / inject_Z (Z.of_nat (List.length submissions)))%Q
  else 0%Q.

(** The sum of the scores of the entries that have one. *)
Fixpoint sum_of_scores (submissions : list item) : Q :=
  match submissions with
  | [] => 0%Q
  | s :: rest => (score_or_zero (score s) + sum_of_scores rest)%Q
  end.

Definition score_in_range (s : item) : Prop :=
  match score s with
  | ScoreNumber n => (0 <= n <= 100)%Q
  | _ => True
  end.

(** The four colour bands of a score badge. *)
Inductive band : Type := emerald | blue | yellow | red.

Definition score_band (n : Q) : band :=
  if Qle_bool 80 n then emerald
  else if Qle_bool 60 n then blue
  else if Qle_bool 40 n then yellow
  else red.

Definition band_rank (b : band) : nat :=
  match b with
  | red => 0 | yellow => 1 | blue => 2 | emerald => 3
  end.

Inductive badge : Type :=
| score_badge (colour : band) (shown : Q)
| completed_badge
| pending_badge
| in_progress_badge.

Inductive icon : Type := check_circle | clock | alert_circle.

(** [switch (submission.submission?.status)] of [getStatusBadge]. *)
Definition status_badge (st : option string) : badge :=
  match st with
  | Some s =>
      if s =? "corrected" then completed_badge
      else if s =? "pending" then pending_badge
      else in_progress_badge
  | None => in_progress_badge
  end.

(** [getStatusBadge]: the score, when [submission.score !== null &&
    submission.score !== undefined], else a badge for the stored status. *)
Definition getStatusBadge (submission : item) : badge :=
  match score submission with
  | ScoreNumber n => score_badge (score_band n) n
  | _ => status_badge (status submission)
  end.

(** [getStatusIcon], with the same two tests. *)
Definition getStatusIcon (submission : item) : icon :=
  match score submission with
  | ScoreNumber _ => check_circle
  | _ =>
      match status submission with
      | Some s =>
          if s =? "corrected" then check_circle
          else if s =? "pending" then clock
          else alert_circle
      | None => alert_circle
      end
  end.

Definition shows_score (b : badge) : bool :=
  match b with
  | score_badge _ _ => true
  | _ => false
  end.

(** The icon that goes with a badge. *)
Definition icon_for (b : badge) : icon :=
  match b with
  | score_badge _ _ | completed_badge => check_circle
  | pending_badge => clock
  | in_progress_badge => alert_circle
  end.

End SubmissionsList.

(** ** The navigation of the sidebar *)

Module Sidebar.

Local Open Scope string_scope.

(** The [href]s of [navigationItems], in their order. *)
Definition navigation_hrefs : list string :=
  ["/"; "/exams"; "/students"; "/submissions"; "/graph"; "/statistics"].

(** [pathname === item.href ||
     (item.href !== "/" && pathname.startsWith(item.href))] *)
Definition isActive (pathname href : string) : bool :=
  (pathname =? href) || (negb (href =? "/") && String.prefix href pathname).

Definition active_items (pathname : string) : list string :=
  filter (isActive pathname) navigation_hrefs.

End Sidebar.

(** ** Counting nodes and relationships of the knowledge graph *)

Module GraphCounts.

Import Graph.
Local Open Scope nat_scope.

Definition count_nodes (l : label) (g : graph) : nat :=
  List.length (filter (fun n => label_eqb (node_label n) l) (nodes g)).

Definition count_rels (k : rel_type) (g : graph) : nat :=
  List.length (filter (fun r => rel_type_eqb (rel_kind r) k) (rels g)).

Definition total_errors (results : list question_result) : nat :=
  fold_right (fun r acc => List.length (qc_errors r) + acc) 0 results.

(** No two nodes with label [l] carry the same key. *)
Definition unique_keys (l : label) (g : graph) : Prop :=
  forall i j n m,
    nth_error (nodes g) i = Some n -> nth_error (nodes g) j = Some m ->
    node_label n = l -> node_label m = l -> node_key n = node_key m -> i = j.

End GraphCounts.

(** ** The correction of a whole submission *)

Module CorrectionRun.

Import Correction.

Section Run.

Variable compare : string -> string -> bool.
Variable agent : Question -> string -> QuestionCorrection.

(** The answers the comparison step does not find correct. *)
Definition not_found_correct (answers : list (Question * string))
  : list (Question * string) :=
  filter (fun qa => negb (compare (snd qa) (q_correct_answer (fst qa)))) answers.

Definition invocations (answers : list (Question * string)) : list event :=
  map (fun qa => AgentInvoked (fst qa) (snd qa)) answers.

(** The correction of one answer, as a value. *)
Definition correction_of (qa : Question * string) : QuestionCorrection :=
  if compare (snd qa) (q_correct_answer (fst qa))
  then full_points (fst qa) (snd qa)
  else agent (fst qa) (snd qa).

End Run.

End CorrectionRun.

(** ** The form for new students ([NewStudentPage]) *)

Module NewStudentPage.

Local Open Scope string_scope.

Record student_row : Type := mkRow {
  name : string;
  student_number : string;
  class_name : string;
  grade_level : Q
}.

(** The row [addStudent] appends, also the one row of the initial state. *)
Definition blank_row : student_row := mkRow "" "" "" 6.

Definition initial_rows : list student_row := [blank_row].

Definition addStudent (students : list student_row) : list student_row :=
  (students ++ [blank_row])%list.

(** [if (students.length > 1)
      setStudents(students.filter((_, i) => i !== index))] *)
Definition removeStudent (index : nat) (students : list student_row)
  : list student_row :=
  if (1 <? List.length students)%nat then
    JSLib.filter_indexed (fun _ i => negb (i =? index)%nat) students
  else students.

Inductive row_value : Type :=
| name_value (v : string)
| student_number_value (v : string)
| class_name_value (v : string)
| grade_level_value (v : Q).

Definition assign (row : student_row) (fv : row_value) : student_row :=
  match fv with
  | name_value v => mkRow v (student_number row) (class_name row) (grade_level row)
  | student_number_value v => mkRow (name row) v (class_name row) (grade_level row)
  | class_name_value v => mkRow (name row) (student_number row) v (grade_level row)
  | grade_level_value v => mkRow (name row) (student_number row) (class_name row) v
  end.

(** [updateStudent], for the index of a row the form shows; past the end
    JavaScript would extend the array with an object holding the one field
    only, which is no [student_row], and the model answers [None]. *)
Definition updateStudent (index : nat) (fv : row_value)
    (students : list student_row) : option (list student_row) :=
  match nth_error students index with
  | Some row => Some (JSLib.replace_at index (assign row fv) students)
  | None => None
  end.

(** What the user can do to the rows of the bulk form. *)
Inductive action : Type :=
| Add
| Remove (index : nat)
| Update (index : nat) (fv : row_value).

Definition step (students : list student_row) (a : action)
  : option (list student_row) :=
  match a with
  | Add => Some (addStudent students)
  | Remove index => Some (removeStudent index students)
  | Update index fv => updateStudent index fv students
  end.

Fixpoint perform (actions : list action) (students : list student_row)
  : option (list student_row) :=
  match actions with
  | [] => Some students
  | a :: rest =>
      match step students a with
      | Some next => perform rest next
      | None => None
      end
  end.

Inductive outcome : Type :=
| toast_error (message : string)
| mutate (payload : list student_row).

(** [handleBulkSubmit]:
<<
    const validStudents = students.filter(
      s => s.name.trim() && s.student_number.trim() && s.class_name.trim()
    )
    if (validStudents.length === 0) {
      toast.error('Please add at least one valid student')
      return
    }
    bulkMutation.mutate(validStudents)
>> *)
Definition handleBulkSubmit (students : list student_row) : outcome :=
  let validStudents :=
    filter (fun s => JSLib.nonempty (JSLib.trim (name s))
                     && JSLib.nonempty (JSLib.trim (student_number s))
                     && JSLib.nonempty (JSLib.trim (class_name s))) students in
  if (List.length validStudents =? 0)%nat then
    toast_error "Please add at least one valid student"
  else mutate validStudents.

(** A row with a visible character in its name, number and class. *)
Definition filled_in (s : student_row) : bool :=
  JSLib.has_visible_char (name s)
  && JSLib.has_visible_char (student_number s)
  && JSLib.has_visible_char (class_name s).

End NewStudentPage.

(** ** The list of students ([StudentsPage]) *)

Module StudentsPage.

Local Open Scope string_scope.

(** A student of the payload; a missing field is [None]. *)
Record student : Type := mkStudent {
  name : option string;
  student_number : option string;
  class_name : option string
}.

(** [s.class_name || 'Unassigned'] *)
Definition class_label (s : student) : string :=
  match class_name s with
  | Some c => if JSLib.truthy c then c else "Unassigned"
  | None => "Unassigned"
  end.

(** [Array.from(new Set(xs))]: the first occurrence of each value, in
    order. *)
Fixpoint distinct_from (seen : list string) (xs : list string) : list string :=
  match xs with
  | [] => []
  | x :: rest =>
      if JSLib.array_includes seen x then distinct_from seen rest
      else x :: distinct_from (x :: seen) rest
  end.

Definition classes (students : list student) : list string :=
  distinct_from [] (map class_label students).

Definition matchesSearch (searchQuery : string) (s : student) : bool :=
  SubmissionsPage.field_matches (name s) searchQuery
  || SubmissionsPage.field_matches (student_number s) searchQuery.

(** [selectedClass === 'all' || student.class_name === selectedClass] *)
Definition matchesClass (selectedClass : string) (s : student) : bool :=
  (selectedClass =? "all")
  || match class_name s with
     | Some c => c =? selectedClass
     | None => false
     end.

Definition filteredStudents (selectedClass searchQuery : string)
    (students : list student) : list student :=
  filter (fun s => matchesSearch searchQuery s && matchesClass selectedClass s)
         students.

(** The student has no class: the field is missing or empty. *)
Definition without_class (s : student) : Prop :=
  class_name s = None \/ class_name s = Some "".

End StudentsPage.

(** ** Sample data for the forms and lists *)

Module FormSamples.

Local Open Scope string_scope.

Definition fraction_question : ExamForm.QuestionForm :=
  ExamForm.mkQuestionForm "Add 1/2 and 1/4" "calculation" "3/4" 2
    "numbers_operations" ["fractions"].

Definition unanswered_question : ExamForm.QuestionForm :=
  ExamForm.mkQuestionForm "Measure the angle" "calculation" "   " 3
    "geometry" [].

Definition draft_form : NewExamPage.form_state :=
  NewExamPage.mkForm "Chapter 5" 6 60 [fraction_question; unanswered_question].

Definition ready_form : NewExamPage.form_state :=
  NewExamPage.mkForm "Chapter 5" 6 60 [fraction_question].

Definition lina : StudentsPage.student :=
  StudentsPage.mkStudent (Some "Lina") (Some "S-01") None.

Definition marc : StudentsPage.student :=
  StudentsPage.mkStudent (Some "Marc") (Some "S-02") (Some "CM2-A").

Definition filled_row : NewStudentPage.student_row :=
  NewStudentPage.mkRow "Nora" "S-03" "CM2-B" 6.

Definition half_filled_row : NewStudentPage.student_row :=
  NewStudentPage.mkRow "Omar" " " "CM2-B" 6.

End FormSamples.

(** ** Empty and missing answers *)

Module EmptyAnswers.

Import Correction.
Local Open Scope string_scope.



Section Evaluator.

Variable compare : string -> string -> bool.
Variable agent : Question -> string -> QuestionCorrection.


End Evaluator.

End EmptyAnswers.

(** ** Edge cases of the data *)

Module EdgeSamples.

Local Open Scope string_scope.


(** A title made of one no-break space (U+00A0, bytes C2 A0). *)
Definition no_break_space : string :=
  String (ascii_of_nat 194) (String (ascii_of_nat 160) EmptyString).

End EdgeSamples.

(** ** The repository's correction write *)

Module Repository.

Local Open Scope string_scope.

Inductive status : Type := pending | corrected | failed.

Record CorrectionNode : Type := mkCorrectionNode {
  c_id : string;
  c_submission : string;
  c_total_points : Q;
  c_earned_points : Q
}.

Record correction_data : Type := mkData {
  d_id : string;
  d_total_points : Q;
  d_earned_points : Q
}.

(** The committed state: the status of every Submission (by id) and the
    committed Correction nodes, each linked to one Submission. *)
Record store : Type := mkStore {
  status_of : string -> option status;
  corrections : list CorrectionNode
}.

Definition empty : store := mkStore (fun _ => None) [].

Definition set_status (sid : string) (v : status)
    (statuses : string -> option status) : string -> option status :=
  fun k => if k =? sid then Some v else statuses k.

Definition linked_to (sid : string) (c : CorrectionNode) : bool :=
  c_submission c =? sid.

Definition corrections_of (sid : string) (st : store) : list CorrectionNode :=
  filter (linked_to sid) (corrections st).

Definition node_of (sid : string) (data : correction_data) : CorrectionNode :=
  mkCorrectionNode (d_id data) sid (d_total_points data) (d_earned_points data).

Inductive outcome : Type :=
  | committed | no_op | overwritten | GraphConstraintError.

(** Modelled from the spec: createSubmission of section 4.4, which fails on
    a duplicate id; a new Submission is pending. *)
Definition createSubmission (sid : string) (st : store) : store * outcome :=
  match status_of st sid with
  | Some _ => (st, GraphConstraintError)
  | None =>
      (mkStore (set_status sid pending (status_of st)) (corrections st),
       committed)
  end.

(** Modelled from the spec: writeCorrection of sections 4.4 and 5, one
    transaction with the precondition of section 5: it writes only if
    Submission.status is not already corrected, and then creates the
    Correction and flips the status to corrected; on a corrected
    Submission it is a no-op, unless the request is an explicit overwrite,
    which replaces the Correction of that Submission. The README chart
    (lines 296-301) shows only the nodes the write creates, and the
    repository's code is not part of the sources. *)
Definition writeCorrection (sid : string) (data : correction_data)
    (overwrite : bool) (st : store) : store * outcome :=
  match status_of st sid with
  | None => (st, GraphConstraintError)
  | Some corrected =>
      if overwrite then
        (mkStore (status_of st)
           (node_of sid data
              :: filter (fun c => negb (linked_to sid c)) (corrections st)),
         overwritten)
      else (st, no_op)
  | Some _ =>
      (mkStore (set_status sid corrected (status_of st))
         (node_of sid data :: corrections st),
       committed)
  end.

(** Modelled from the spec: a correction that cannot be completed leaves
    the Submission failed (section 3, status); only a pending Submission
    changes. *)
Definition markFailed (sid : string) (st : store) : store * outcome :=
  match status_of st sid with
  | Some pending =>
      (mkStore (set_status sid failed (status_of st)) (corrections st),
       committed)
  | _ => (st, no_op)
  end.

Inductive request : Type :=
  | CreateSubmission (sid : string)
  | WriteCorrection (sid : string) (data : correction_data) (overwrite : bool)
  | MarkFailed (sid : string).

Definition serve (r : request) (st : store) : store :=
  match r with
  | CreateSubmission sid => fst (createSubmission sid st)
  | WriteCorrection sid data overwrite =>
      fst (writeCorrection sid data overwrite st)
  | MarkFailed sid => fst (markFailed sid st)
  end.

(** Modelled from the spec: transactions on one Submission serialize
    (section 5), so what concurrent workers do to the store is what their
    requests do one after the other, in the order the transactions
    commit; every order is possible. *)
Definition execute (requests : list request) (st : store) : store :=
  fold_left (fun s r => serve r s) requests st.



End Repository.

(** ** Exam creation *)

Module ExamCreation.

Import ExamForm NewExamPage.
Local Open Scope Q_scope.

(** The Exam of the data model with its Questions; points are exact
    numbers, as in [ExamForm]. *)
Record Exam : Type := mkExam {
  exam_title : string;
  exam_grade_level : Q;
  exam_subject : string;
  exam_questions : list QuestionForm;
  exam_total_points : Q
}.


End ExamCreation.

(** ** frontend/app/submissions/[id]: the new-submission form *)

Module NewSubmissionPage.

Local Open Scope string_scope.

Record manual_answer : Type := mkAnswer {
  question_id : string;
  answer : string
}.

(** An element of the [manualAnswers] array: an index past the end that an
    assignment skipped is a hole; a hole that was read holds
    [undefined]. *)
Inductive slot : Type :=
| hole
| undefined
| object (a : manual_answer).

(** What reading an index yields. *)
Definition read (s : slot) : slot :=
  match s with
  | hole => undefined
  | _ => s
  end.

(** [[...manualAnswers]]: the copy reads every index, so it has no hole. *)
Definition spread (answers : list slot) : list slot := map read answers.

(** [updated[index] = v]: within the array the element is replaced; past
    its end the array grows to [index + 1] elements, with holes between
    the old end and [index]. *)
Definition assign_at (index : nat) (v : slot) (xs : list slot) : list slot :=
  (firstn index xs ++ repeat hole (index - List.length xs)
     ++ v :: skipn (S index) xs)%list.

(** The [onChange] of the answer field of question [index]:
<<
    const updated = [...manualAnswers]
    updated[index] = { question_id: question.id, answer: e.target.value }
    setManualAnswers(updated)
>> *)
Definition typeAnswer (index : nat) (id value : string)
    (manualAnswers : list slot) : list slot :=
  assign_at index (object (mkAnswer id value)) (spread manualAnswers).

Inductive mode_value : Type := upload | manual.

Record form_state : Type := mkForm {
  examId : string;
  studentId : string;
  mode : mode_value;
  file : option string;
  manualAnswers : list slot
}.

Inductive request : Type :=
| uploadSubmission (file exam_id student_id : string)
| createSubmission (exam_id student_id : string) (answers : list manual_answer).

(** [manualAnswers.filter(a => a.answer.trim())]: [filter] skips holes;
    on [undefined] the callback reads a property of [undefined] and
    throws. *)
Fixpoint filter_answers (answers : list slot)
  : JSLib.exception + list manual_answer :=
  match answers with
  | [] => inr []
  | hole :: rest => filter_answers rest
  | undefined :: _ => inl JSLib.TypeError
  | object a :: rest =>
      match filter_answers rest with
      | inl e => inl e
      | inr kept =>
          inr (if JSLib.nonempty (JSLib.trim (answer a)) then a :: kept
               else kept)
      end
  end.

(** [mutationFn]: the upload when the mode is upload and a file is set,
    the typed answers otherwise. *)
Definition mutationFn (st : form_state) : JSLib.exception + request :=
  match mode st, file st with
  | upload, Some f => inr (uploadSubmission f (examId st) (studentId st))
  | _, _ =>
      match filter_answers (manualAnswers st) with
      | inl e => inl e
      | inr answers => inr (createSubmission (examId st) (studentId st) answers)
      end
  end.

Inductive outcome : Type :=
| toast_error (message : string)
| request_sent (r : request).

(** [handleSubmit], with [createMutation.mutate()] followed up to the
    request: when [mutationFn] throws, [onError] gets an error without a
    [response] and shows its fallback message. *)
Definition handleSubmit (st : form_state) : outcome :=
  if examId st =? "" then toast_error "Please select an exam"
  else if studentId st =? "" then toast_error "Please select a student"
  else
    match mode st, file st with
    | upload, None => toast_error "Please upload a file"
    | _, _ =>
        match mutationFn st with
        | inl _ => toast_error "Failed to create submission"
        | inr r => request_sent r
        end
    end.



End NewSubmissionPage.

(** * Properties *)

Unset Implicit Arguments.

(** ** The exam creation form *)

Section ExamFormFacts.

Import ExamForm.
Local Open Scope Q_scope.

Lemma reduce_points_from (questions : list QuestionForm) (acc : Q) :
  JS.reduce (fun sum q => sum + points q) acc questions
  == acc + sum_of_question_points questions.
Proof.
  unfold JS.reduce.
  revert acc; induction questions as [|q rest IH]; intros acc; simpl.
  - ring.
  - rewrite IH. ring.
Qed.

End ExamFormFacts.

(** ** The submissions list *)

Section SubmissionsPageFacts.

Import SubmissionsPage.
Local Open Scope string_scope.

Lemma strict_neq_null_iff (v : score_value) :
  strict_neq_null v = true <-> v <> ScoreNull.
Proof. destruct v; simpl; split; intros H; congruence. Qed.

Lemma strict_eq_null_iff (v : score_value) :
  strict_eq_null v = true <-> v = ScoreNull.
Proof. destruct v; simpl; split; intros H; congruence. Qed.

Lemma matchesStatus_corrected (it : item) :
  matchesStatus "corrected" it = strict_neq_null (score it).
Proof. unfold matchesStatus; simpl. destruct (strict_neq_null (score it)); reflexivity. Qed.

Lemma matchesStatus_pending (it : item) :
  matchesStatus "pending" it = strict_eq_null (score it).
Proof. unfold matchesStatus; simpl. destruct (strict_eq_null (score it)); reflexivity. Qed.

Lemma filtered_In (statusFilter searchQuery : string)
    (submissions : list item) (it : item) :
  In it (filteredSubmissions statusFilter searchQuery submissions)
  <-> In it submissions /\ matchesSearch searchQuery it = true
      /\ matchesStatus statusFilter it = true.
Proof.
  unfold filteredSubmissions. rewrite filter_In, andb_true_iff. tauto.
Qed.

Lemma filtered_with_status (statusFilter searchQuery : string)
    (st : option string) (submissions : list item) :
  filteredSubmissions statusFilter searchQuery (map (with_status st) submissions)
  = map (with_status st) (filteredSubmissions statusFilter searchQuery submissions).
Proof.
  unfold filteredSubmissions.
  induction submissions as [|it rest IH]; simpl; [reflexivity|].
  change (matchesSearch searchQuery (with_status st it))
    with (matchesSearch searchQuery it).
  change (matchesStatus statusFilter (with_status st it))
    with (matchesStatus statusFilter it).
  destruct (matchesSearch searchQuery it && matchesStatus statusFilter it);
    simpl; rewrite IH; reflexivity.
Qed.

(** C9: in the submissions list an entry counts as corrected exactly when
    its score is not null and as pending exactly when its score is null;
    the stored status plays no part, neither in the filtered list nor in
    the corrected count. *)
Theorem submissions_classified_by_score
    (searchQuery : string) (submissions : list item) (it : item) :
  (In it (filteredSubmissions "corrected" searchQuery submissions)
     <-> In it submissions /\ matchesSearch searchQuery it = true
         /\ score it <> ScoreNull)
  /\ (In it (filteredSubmissions "pending" searchQuery submissions)
     <-> In it submissions /\ matchesSearch searchQuery it = true
         /\ score it = ScoreNull)
  /\ (forall statusFilter st,
        matchesStatus statusFilter (with_status st it)
        = matchesStatus statusFilter it)
  /\ (forall statusFilter st,
        filteredSubmissions statusFilter searchQuery
          (map (with_status st) submissions)
        = map (with_status st)
            (filteredSubmissions statusFilter searchQuery submissions))
  /\ correctedCount (it :: submissions)
     = ((if strict_eq_null (score it) then 0 else 1)
        + correctedCount submissions)%nat
  /\ (forall st, correctedCount (map (with_status st) submissions)
                 = correctedCount submissions).
Proof.
  split; [|split; [|split; [|split; [|split]]]].
  - rewrite filtered_In, matchesStatus_corrected, strict_neq_null_iff.
    tauto.
  - rewrite filtered_In, matchesStatus_pending, strict_eq_null_iff.
    tauto.
  - reflexivity.
  - intros; apply filtered_with_status.
  - unfold correctedCount; simpl. destruct (score it); reflexivity.
  - intros st. unfold correctedCount.
    induction submissions as [|x rest IH]; simpl; [reflexivity|].
    destruct (strict_neq_null (score x)); simpl; rewrite IH; reflexivity.
Qed.

End SubmissionsPageFacts.

(** ** The progress bar *)

Section ProgressBarFacts.

Import ProgressBar.
Local Open Scope Q_scope.

Lemma Math_max_spec (a b : Q) :
  (a <= b /\ JS.Math_max a b = b) \/ (b < a /\ JS.Math_max a b = a).
Proof.
  unfold JS.Math_max. destruct (Qle_bool a b) eqn:E.
  - left. split; [now apply Qle_bool_iff | reflexivity].
  - right. split; [|reflexivity]. apply Qnot_le_lt. intros H.
    apply Qle_bool_iff in H. congruence.
Qed.

Lemma Math_min_spec (a b : Q) :
  (a <= b /\ JS.Math_min a b = a) \/ (b < a /\ JS.Math_min a b = b).
Proof.
  unfold JS.Math_min. destruct (Qle_bool a b) eqn:E.
  - left. split; [now apply Qle_bool_iff | reflexivity].
  - right. split; [|reflexivity]. apply Qnot_le_lt. intros H.
    apply Qle_bool_iff in H. congruence.
Qed.

Lemma percentage_of_clamped (value max : Q) :
  percentage_of value max == clamped_ratio value max
  /\ 0 <= percentage_of value max <= 100.
Proof.
  unfold percentage_of, clamped_ratio, Num.clamp.
  set (x := value / max * 100).
  destruct (Math_max_spec 0 x) as [[H1 ->]|[H1 ->]];
    [destruct (Math_min_spec 100 x) as [[H2 ->]|[H2 ->]]
    |destruct (Math_min_spec 100 0) as [[H2 ->]|[H2 ->]]];
    destruct (Qlt_le_dec x 0); try destruct (Qlt_le_dec 100 x); lra.
Qed.

(** C10: for a positive [max] the fill width of the progress bar is the
    ratio [value / max] in percent clamped into [[0, 100]]: it is never
    negative and never above 100. *)
Theorem progress_width_clamped (props : ProgressProps) :
  0 < prop_or_default (max props) 100 ->
  percentage props
    == clamped_ratio (prop_or_default (value props) 0)
                     (prop_or_default (max props) 100)
  /\ 0 <= percentage props <= 100.
Proof.
  intros _. unfold percentage. apply percentage_of_clamped.
Qed.

Lemma progress_width_clamped_witness :
  0 < prop_or_default (max (mkProps (Some 30) (Some 40))) 100
  /\ (percentage (mkProps (Some 30) (Some 40))
        == clamped_ratio 30 40
      /\ 0 <= percentage (mkProps (Some 30) (Some 40)) <= 100).
Proof.
  split; [reflexivity|].
  apply (progress_width_clamped (mkProps (Some 30) (Some 40))). reflexivity.
Defined.

End ProgressBarFacts.

(** ** The correction workflow *)

Section CorrectionFacts.

Import Correction.
Local Open Scope string_scope.

Variable compare : string -> string -> bool.
Variable agent : Question -> string -> QuestionCorrection.

(** The two branches of [correct_question]. *)
Lemma correct_question_not_correct (question : Question) (answer : string)
    (log : list event) :
  compare answer (q_correct_answer question) = false ->
  correct_question compare agent question answer log
  = (agent question answer, (log ++ [AgentInvoked question answer])%list).
Proof.
  intros H. unfold correct_question, _ai_correct_question, bind, ret, emit.
  rewrite H. reflexivity.
Qed.

Lemma correct_question_correct (question : Question) (answer : string)
    (log : list event) :
  compare answer (q_correct_answer question) = true ->
  correct_question compare agent question answer log
  = (full_points question answer, log).
Proof.
  intros H. unfold correct_question, bind, ret. rewrite H. reflexivity.
Qed.

End CorrectionFacts.

Section TerminalVerdicts.

Import Correction.
Local Open Scope string_scope.

(** C1, as stated, fails: with the comparison step ruling "not correct"
    on "x+2" against "x+1", the agent is invoked and its partial credit is
    the result. *)
Lemma incorrect_verdict_not_terminal :
  ~ (forall (compare : string -> string -> bool)
            (agent : Question -> string -> QuestionCorrection)
            (question : Question) (answer : string),
        compare answer (q_correct_answer question) = false ->
        snd (run (correct_question compare agent question answer)) = []
        /\ (points_earned
              (fst (run (correct_question compare agent question answer)))
            == 0)%Q).
Proof.
  intros H.
  destruct (H exact_match Samples.one_point_agent
              Samples.simplify_question "x+2" eq_refl) as [Hlog _].
  discriminate Hlog.
Qed.

(** C1, amended: only the verdict "correct" of the comparison step is
    terminal (full points, agent not invoked); on every pair the
    comparison does not find correct, the agent is invoked exactly once
    and its correction is the result. *)
Theorem comparison_verdict_routing
    (compare : string -> string -> bool)
    (agent : Question -> string -> QuestionCorrection)
    (question : Question) (answer : string) :
  run (correct_question compare agent question answer)
  = if compare answer (q_correct_answer question)
    then (full_points question answer, [])
    else (agent question answer, [AgentInvoked question answer]).
Proof.
  unfold run.
  destruct (compare answer (q_correct_answer question)) eqn:H.
  - now rewrite correct_question_correct.
  - now rewrite correct_question_not_correct.
Qed.



End TerminalVerdicts.

(** ** The semantic agent boundary *)

Section SemanticAgentFacts.

Import Correction SemanticAgent.
Local Open Scope Q_scope.





Variable service : prompt -> reply.
Variable context_for : Question -> list string.


Variable compare : string -> string -> bool.




End SemanticAgentFacts.

Section AgentBoundaryClaims.

Import Correction SemanticAgent.
Local Open Scope Q_scope.

(** C2: when neither the first reply of the semantic agent nor the reply
    to the single retry conforms to the schema, the call ends in an
    UpstreamServiceError, and the QuestionCorrection recorded for it is
    flagged [needs_manual_review] with zero points; a correction that is
    not flagged always carries the (clamped) points of a conforming
    reply, never a made-up score. *)
Theorem malformed_replies_need_manual_review
    (service : prompt -> reply) (context_for : Question -> list string)
    (question : Question) (answer : string) :
  let first := service (prompt_for context_for CorrectionRequest question answer) in
  let second := service (prompt_for context_for ValidJsonOnlyRetry question answer) in
  let recorded := ai_correct service context_for question answer in
  (validate first = None -> validate second = None ->
     semantic_verdict service context_for question answer
     = inl UpstreamServiceError
     /\ needs_manual_review recorded = true
     /\ points_earned recorded = 0
     /\ is_correct recorded = false)
  /\ (needs_manual_review recorded = false ->
      exists v, (validate first = Some v \/ validate second = Some v)
                /\ recorded = trusted_correction question answer v).
Proof.
  intros first second recorded. subst first second recorded.
  unfold ai_correct, semantic_verdict.
  split.
  - intros -> ->. repeat split.
  - destruct (validate (service (prompt_for context_for CorrectionRequest
                                   question answer))) as [v|] eqn:E1.
    + intros _. exists v. split; [now left | reflexivity].
    + destruct (validate (service (prompt_for context_for ValidJsonOnlyRetry
                                     question answer))) as [v|] eqn:E2.
      * intros _. exists v. split; [now right | reflexivity].
      * simpl. discriminate.
Qed.

Lemma malformed_replies_need_manual_review_witness :
  semantic_verdict Samples.garbled_service Samples.no_context
    Samples.sum_question "about forty"
  = inl UpstreamServiceError
  /\ needs_manual_review
       (ai_correct Samples.garbled_service Samples.no_context
          Samples.sum_question "about forty") = true
  /\ points_earned
       (ai_correct Samples.garbled_service Samples.no_context
          Samples.sum_question "about forty") = 0
  /\ is_correct
       (ai_correct Samples.garbled_service Samples.no_context
          Samples.sum_question "about forty") = false.
Proof.
  apply (proj1 (malformed_replies_need_manual_review
                  Samples.garbled_service Samples.no_context
                  Samples.sum_question "about forty"));
    reflexivity.
Defined.




End AgentBoundaryClaims.

(** ** The storage step *)

Section GraphFacts.

Import Graph.
Local Open Scope nat_scope.
Local Open Scope string_scope.

Lemma find_from_found (l : label) (key : string) (ns : list node) (pos p : nat) :
  find_from l key ns pos = Some p ->
  pos <= p /\ exists n, nth_error ns (p - pos) = Some n /\ is_node l key n = true.
Proof.
  revert pos. induction ns as [|n rest IH]; intros pos H; simpl in H.
  - discriminate.
  - destruct (is_node l key n) eqn:E.
    + injection H as <-. split; [lia|]. exists n.
      rewrite Nat.sub_diag. auto.
    + apply IH in H. destruct H as [Hle (m & Hm & Hn)].
      split; [lia|]. exists m. split; [|assumption].
      replace (p - pos) with (S (p - S pos)) by lia. exact Hm.
Qed.

Lemma match_node_found (l : label) (key : string) (g : graph) (p : nat) :
  match_node l key g = Some p ->
  exists n, nth_error (nodes g) p = Some n /\ is_node l key n = true.
Proof.
  intros H. apply find_from_found in H. now rewrite Nat.sub_0_r in H.
Qed.

Lemma match_node_lt (l : label) (key : string) (g : graph) (p : nat) :
  match_node l key g = Some p -> p < List.length (nodes g).
Proof.
  intros H. apply match_node_found in H. destruct H as (n & Hn & _).
  apply nth_error_Some. congruence.
Qed.

Lemma grows_refl (g : graph) : grows g g.
Proof.
  exists [], []. rewrite !app_nil_r. repeat split. constructor.
Qed.

Lemma in_range_mono (g g' : graph) (r : rel) :
  List.length (nodes g) <= List.length (nodes g') ->
  in_range g r -> in_range g' r.
Proof. unfold in_range. lia. Qed.

Lemma grows_length (g g' : graph) :
  grows g g' -> List.length (nodes g) <= List.length (nodes g').
Proof.
  intros (ns & rs & Hn & _). rewrite Hn, length_app. lia.
Qed.

Lemma grows_trans (g1 g2 g3 : graph) :
  grows g1 g2 -> grows g2 g3 -> grows g1 g3.
Proof.
  intros H12 H23. pose proof (grows_length _ _ H23) as Hlen.
  destruct H12 as (ns & rs & Hn & Hr & Hall).
  destruct H23 as (ns' & rs' & Hn' & Hr' & Hall').
  exists (ns ++ ns')%list, (rs ++ rs')%list.
  rewrite Hn', Hn, Hr', Hr, <- !app_assoc. repeat split.
  apply Forall_app. split; [|assumption].
  eapply Forall_impl; [|exact Hall]. intros r [Hk Hin].
  split; [assumption|]. eapply in_range_mono; eassumption.
Qed.

Lemma grows_well_formed (g g' : graph) :
  well_formed g -> grows g g' -> well_formed g'.
Proof.
  intros Hwf Hg. pose proof (grows_length _ _ Hg) as Hlen.
  destruct Hg as (ns & rs & Hn & Hr & Hall).
  unfold well_formed. rewrite Hr. apply Forall_app. split.
  - eapply Forall_impl; [|exact Hwf]. intros r Hr0. eapply in_range_mono; eassumption.
  - eapply Forall_impl; [|exact Hall]. now intros r [_ H].
Qed.

Lemma create_node_grows (l : label) (key : string) (g : graph) :
  grows g (snd (create_node l key g))
  /\ fst (create_node l key g) = List.length (nodes g)
  /\ fst (create_node l key g) < List.length (nodes (snd (create_node l key g))).
Proof.
  simpl. split; [|split; [reflexivity|]].
  - exists [mkNode l key], []. simpl. rewrite app_nil_r.
    repeat split. constructor.
  - rewrite length_app; simpl; lia.
Qed.

Lemma merge_node_grows (l : label) (key : string) (g : graph) :
  grows g (snd (merge_node l key g))
  /\ fst (merge_node l key g) < List.length (nodes (snd (merge_node l key g))).
Proof.
  unfold merge_node. destruct (match_node l key g) as [p|] eqn:E.
  - simpl. split; [apply grows_refl | now apply match_node_lt in E].
  - destruct (create_node_grows l key g) as (H1 & _ & H3). now split.
Qed.

Lemma create_rel_grows (a b : nat) (k : rel_type) (g : graph) :
  rel_type_eqb k HAS_CORRECTION = false ->
  a < List.length (nodes g) -> b < List.length (nodes g) ->
  grows g (create_rel a k b g).
Proof.
  intros Hk Ha Hb. exists [], [mkRel a k b]. simpl. rewrite app_nil_r.
  repeat split; try assumption. constructor; [|constructor].
  split; [assumption|]. split; assumption.
Qed.

Lemma link_errors_grows (names : list string) (qc : nat) (g : graph) :
  qc < List.length (nodes g) -> grows g (link_errors qc names g).
Proof.
  revert g. induction names as [|name rest IH]; intros g Hqc; simpl.
  - apply grows_refl.
  - destruct (merge_node_grows ErrorType name g) as [Hg He].
    destruct (merge_node ErrorType name g) as [e g1]. simpl in *.
    pose proof (grows_length _ _ Hg) as Hlen.
    eapply grows_trans; [exact Hg|].
    eapply grows_trans; [apply (create_rel_grows qc e HAS_ERROR g1)|];
      [reflexivity | lia | assumption |].
    apply IH. simpl. lia.
Qed.

Lemma store_question_results_grows (results : list question_result)
    (c : nat) (g : graph) :
  c < List.length (nodes g) -> grows g (store_question_results c results g).
Proof.
  revert g. induction results as [|r rest IH]; intros g Hc; simpl.
  - apply grows_refl.
  - destruct (create_node_grows QuestionCorrection (qc_id r) g)
      as (Hg & _ & Hq).
    set (g1 := snd (create_node QuestionCorrection (qc_id r) g)) in *.
    pose proof (grows_length _ _ Hg) as Hlen.
    assert (Hrel : grows g1 (create_rel c INCLUDES (List.length (nodes g)) g1)).
    { apply create_rel_grows; [reflexivity | lia |].
      subst g1; simpl in *. exact Hq. }
    assert (Herr : grows (create_rel c INCLUDES (List.length (nodes g)) g1)
              (link_errors (List.length (nodes g)) (qc_errors r)
                 (create_rel c INCLUDES (List.length (nodes g)) g1))).
    { apply link_errors_grows. subst g1; simpl in *. exact Hq. }
    eapply grows_trans; [exact Hg|].
    eapply grows_trans; [exact Hrel|].
    eapply grows_trans; [exact Herr|].
    apply IH. pose proof (grows_length _ _ Herr) as Hlen'.
    simpl in Hlen'. subst g1; simpl in *. lia.
Qed.

Lemma nth_error_grows (g g' : graph) (i : nat) :
  grows g g' -> i < List.length (nodes g) ->
  nth_error (nodes g') i = nth_error (nodes g) i.
Proof.
  intros (ns & _ & Hn & _) Hi. rewrite Hn. now apply nth_error_app1.
Qed.

Lemma links_correction_grows (sid : string) (g g' : graph) (r : rel) :
  grows g g' -> in_range g r ->
  links_correction sid g' r = links_correction sid g r.
Proof.
  intros Hg [Hf Ht]. unfold links_correction, has_label, has_key.
  now rewrite !(nth_error_grows _ _ _ Hg) by assumption.
Qed.

Lemma corrections_of_grows (sid : string) (g g' : graph) :
  well_formed g -> grows g g' ->
  corrections_of sid g' = corrections_of sid g.
Proof.
  intros Hwf Hg. unfold corrections_of.
  pose proof Hg as (ns & rs & Hn & Hr & Hall).
  rewrite Hr, filter_app, map_app.
  replace (filter (links_correction sid g') rs) with (@nil rel).
  - simpl. rewrite app_nil_r. f_equal. apply filter_ext_in.
    intros r Hin. apply links_correction_grows; [assumption|].
    unfold well_formed in Hwf. rewrite Forall_forall in Hwf. now apply Hwf.
  - symmetry. clear Hr. induction Hall as [|r rest [Hk _] _ IH];
      [reflexivity|]. simpl.
    unfold links_correction at 1. rewrite Hk. simpl. exact IH.
Qed.

Lemma store_correction_unfold (sid : string) (data : correction_data)
    (g : graph) (s : nat) :
  match_node Submission sid g = Some s ->
  store_correction sid data g
  = store_question_results (List.length (nodes g)) (question_results data)
      (linked s data g).
Proof. intros H. unfold store_correction. now rewrite H. Qed.

Lemma linked_well_formed (s : nat) (data : correction_data) (g : graph) :
  well_formed g -> s < List.length (nodes g) ->
  well_formed (linked s data g).
Proof.
  intros Hwf Hs. unfold well_formed, linked; simpl.
  apply Forall_app. split.
  - eapply Forall_impl; [|exact Hwf]. intros r [Hf Ht].
    unfold in_range; simpl. rewrite length_app; simpl. lia.
  - constructor; [|constructor]. unfold in_range; simpl.
    rewrite length_app; simpl. lia.
Qed.

Lemma linked_old_rel (sid : string) (s : nat) (data : correction_data)
    (g : graph) (r : rel) :
  in_range g r ->
  links_correction sid (linked s data g) r = links_correction sid g r.
Proof.
  intros [Hf Ht]. unfold links_correction, has_label, has_key, linked; simpl.
  now rewrite !nth_error_app1 by assumption.
Qed.

Lemma linked_new_rel (sid other : string) (s : nat) (data : correction_data)
    (g : graph) :
  match_node Submission sid g = Some s ->
  links_correction other (linked s data g)
    (mkRel s HAS_CORRECTION (List.length (nodes g)))
  = (sid =? other).
Proof.
  intros H. pose proof (match_node_lt _ _ _ _ H) as Hs.
  apply match_node_found in H. destruct H as (n & Hn & Hnode).
  unfold is_node in Hnode. apply andb_true_iff in Hnode.
  destruct Hnode as [Hl Hk]. apply String.eqb_eq in Hk.
  unfold links_correction, has_label, has_key, linked; simpl.
  rewrite nth_error_app1 by assumption. rewrite Hn, Hl, Hk.
  rewrite nth_error_app2 by lia. rewrite Nat.sub_diag. simpl.
  now rewrite andb_true_r.
Qed.

Lemma linked_corrections (sid other : string) (s : nat)
    (data : correction_data) (g : graph) :
  well_formed g -> match_node Submission sid g = Some s ->
  corrections_of other (linked s data g)
  = (corrections_of other g
     ++ (if sid =? other then [List.length (nodes g)] else []))%list.
Proof.
  intros Hwf H. unfold corrections_of.
  change (rels (linked s data g))
    with (rels g ++ [mkRel s HAS_CORRECTION (List.length (nodes g))])%list.
  rewrite filter_app, map_app. f_equal.
  - f_equal. apply filter_ext_in. intros r Hin. apply linked_old_rel.
    unfold well_formed in Hwf. rewrite Forall_forall in Hwf. now apply Hwf.
  - simpl. rewrite (linked_new_rel sid other s data g H).
    destruct (sid =? other); reflexivity.
Qed.

Lemma store_correction_corrections (sid other : string)
    (data : correction_data) (g : graph) (s : nat) :
  well_formed g -> match_node Submission sid g = Some s ->
  corrections_of other (store_correction sid data g)
  = (corrections_of other g
     ++ (if sid =? other then [List.length (nodes g)] else []))%list.
Proof.
  intros Hwf H. pose proof (match_node_lt _ _ _ _ H) as Hs.
  rewrite (store_correction_unfold sid data g s H).
  rewrite <- (linked_corrections sid other s data g Hwf H).
  apply corrections_of_grows.
  - now apply linked_well_formed.
  - apply store_question_results_grows.
    unfold linked; simpl. rewrite length_app; simpl. lia.
Qed.

Lemma apply_well_formed (op : operation) (g : graph) :
  well_formed g -> well_formed (apply op g).
Proof.
  intros Hwf. destruct op as [sid|sid data]; simpl.
  - apply (grows_well_formed g _ Hwf).
    apply (create_node_grows Submission sid g).
  - unfold store_correction.
    destruct (match_node Submission sid g) as [s|] eqn:E; [|assumption].
    pose proof (match_node_lt _ _ _ _ E) as Hs.
    change (well_formed
              (store_question_results (List.length (nodes g))
                 (question_results data) (linked s data g))).
    apply (grows_well_formed (linked s data g)).
    + now apply linked_well_formed.
    + apply store_question_results_grows.
      unfold linked; simpl. rewrite length_app; simpl. lia.
Qed.

Lemma execute_well_formed (ops : list operation) (g : graph) :
  well_formed g -> well_formed (execute ops g).
Proof.
  revert g. induction ops as [|op rest IH]; intros g Hwf; simpl.
  - assumption.
  - apply IH. now apply apply_well_formed.
Qed.

Lemma reachable_well_formed (g : graph) : reachable g -> well_formed g.
Proof.
  intros [ops ->]. apply execute_well_formed. constructor.
Qed.

Lemma reachable_apply (op : operation) (g : graph) :
  reachable g -> reachable (apply op g).
Proof.
  intros [ops ->]. exists (ops ++ [op])%list.
  unfold execute. now rewrite fold_left_app.
Qed.

End GraphFacts.

(** ** Similarity search *)

Section SearchFacts.

Import VectorIndex.
Local Open Scope Q_scope.

Variable cosine_similarity : embedding -> embedding -> Q.
Variable query : embedding.

Local Abbreviation before := (ranks_before cosine_similarity query).
Local Abbreviation ordered := (in_rank_order cosine_similarity query).
Local Abbreviation similar := (at_least_as_similar cosine_similarity query).
Local Abbreviation insert := (insert_ranked cosine_similarity query).
Local Abbreviation ranked := (rank cosine_similarity query).

Lemma ranks_before_ordered (a b : indexed_question) :
  before a b = true -> ordered a b.
Proof.
  unfold ranks_before, in_rank_order.
  destruct (score cosine_similarity query a ?= score cosine_similarity query b)
    eqn:E; intros H.
  - right. split; [now apply Qeq_alt | assumption].
  - discriminate.
  - left. now apply Qgt_alt.
Qed.

Lemma ranks_before_total (a b : indexed_question) :
  before a b = false -> ordered b a.
Proof.
  intros H. apply ranks_before_ordered. revert H.
  unfold ranks_before. rewrite <- (Qcompare_antisym (score _ _ a)).
  destruct (score cosine_similarity query a ?= score cosine_similarity query b);
    simpl; intros H; try congruence.
  destruct (String.leb_total (question_id a) (question_id b)); congruence.
Qed.

Lemma ordered_similar (a b : indexed_question) : ordered a b -> similar a b.
Proof.
  unfold in_rank_order, at_least_as_similar. intros [H|[H _]].
  - now apply Qlt_le_weak.
  - rewrite H. apply Qle_refl.
Qed.

Lemma similar_trans (a b c : indexed_question) :
  similar a b -> similar b c -> similar a c.
Proof. unfold at_least_as_similar. intros; eapply Qle_trans; eauto. Qed.

Lemma insert_HdRel (y x : indexed_question) (l : list indexed_question) :
  ordered y x -> HdRel ordered y l -> HdRel ordered y (insert x l).
Proof.
  intros Hyx Hl. destruct l as [|z rest]; simpl.
  - now constructor.
  - destruct (before x z); constructor; [assumption|].
    now inversion Hl.
Qed.

Lemma insert_sorted (x : indexed_question) (l : list indexed_question) :
  Sorted ordered l -> Sorted ordered (insert x l).
Proof.
  induction 1 as [|y rest Hs IH Hhd]; simpl.
  - repeat constructor.
  - destruct (before x y) eqn:E.
    + constructor; [now constructor|].
      constructor. now apply ranks_before_ordered.
    + constructor; [assumption|].
      apply insert_HdRel; [|assumption]. now apply ranks_before_total.
Qed.

Lemma rank_sorted (l : list indexed_question) : Sorted ordered (ranked l).
Proof.
  induction l as [|x rest IH]; simpl; [constructor|].
  now apply insert_sorted.
Qed.

Lemma insert_permutation (x : indexed_question) (l : list indexed_question) :
  Permutation (insert x l) (x :: l).
Proof.
  induction l as [|y rest IH]; simpl; [reflexivity|].
  destruct (before x y); [reflexivity|].
  rewrite IH. apply perm_swap.
Qed.

Lemma rank_permutation (l : list indexed_question) : Permutation (ranked l) l.
Proof.
  induction l as [|x rest IH]; simpl; [reflexivity|].
  rewrite insert_permutation. now constructor.
Qed.

Lemma sorted_similar (l : list indexed_question) :
  Sorted ordered l -> StronglySorted similar l.
Proof.
  intros H. apply Sorted_StronglySorted.
  - intros a b c. apply similar_trans.
  - induction H as [|y rest Hs IH Hhd]; constructor; [assumption|].
    destruct Hhd; constructor. now apply ordered_similar.
Qed.

Lemma firstn_sorted (k : nat) (l : list indexed_question) :
  Sorted ordered l -> Sorted ordered (firstn k l).
Proof.
  revert l. induction k as [|k IH]; intros l H; simpl; [constructor|].
  destruct H as [|y rest Hs Hhd]; [constructor|].
  constructor; [now apply IH|].
  destruct Hhd; destruct k; simpl; constructor. assumption.
Qed.

Lemma strongly_sorted_split (l1 l2 : list indexed_question) :
  StronglySorted similar (l1 ++ l2) ->
  forall x y, In x l1 -> In y l2 -> similar x y.
Proof.
  induction l1 as [|a rest IH]; simpl; intros H x y Hx Hy; [contradiction|].
  inversion H as [|? ? Hrest Hall]; subst.
  destruct Hx as [<-|Hx].
  - rewrite Forall_forall in Hall. apply Hall. apply in_or_app. now right.
  - now apply (IH Hrest).
Qed.

End SearchFacts.

Section SearchClaim.

Import VectorIndex.
Local Open Scope Q_scope.

(** C6: whatever the query embedding and [k], findSimilarQuestions
    returns at most [k] questions of the index, in order of descending
    cosine similarity to the query, two questions of equal similarity in
    ascending order of their ids; the questions left out are no more
    similar than those returned. *)
Theorem findSimilarQuestions_ranked
    (cosine_similarity : embedding -> embedding -> Q)
    (query : embedding) (k : nat) (index : list indexed_question) :
  let result := findSimilarQuestions cosine_similarity query k index in
  (List.length result <= k)%nat
  /\ List.length result = Nat.min k (List.length index)
  /\ Sorted (in_rank_order cosine_similarity query) result
  /\ StronglySorted (at_least_as_similar cosine_similarity query) result
  /\ exists others,
       Permutation (result ++ others) index
       /\ forall x y, In x result -> In y others ->
                      at_least_as_similar cosine_similarity query x y.
Proof.
  intros result. subst result. unfold findSimilarQuestions.
  pose proof (rank_sorted cosine_similarity query index) as Hs.
  pose proof (rank_permutation cosine_similarity query index) as Hp.
  split; [apply firstn_le_length|].
  split; [rewrite length_firstn; now rewrite (Permutation_length Hp)|].
  split; [now apply firstn_sorted|].
  split; [apply sorted_similar; now apply firstn_sorted|].
  exists (skipn k (rank cosine_similarity query index)).
  rewrite firstn_skipn. split; [assumption|].
  apply strongly_sorted_split. rewrite firstn_skipn.
  now apply sorted_similar.
Qed.

End SearchClaim.

(** ** The answer normalizer *)

Section NormalizerFacts.

Import Normalizer.
Local Open Scope char_scope.

Lemma canonical_numeric (c : ascii) :
  classify c = Numeric -> canonical_in Numeric (canonical_char c).
Proof.
  unfold canonical_in.
  destruct c as [[] [] [] [] [] [] [] []]; vm_compute; intros H;
    solve [discriminate H | split; reflexivity].
Qed.

Lemma canonical_letter (c : ascii) :
  classify c = Letter -> canonical_in Letter (canonical_char c).
Proof.
  unfold canonical_in.
  destruct c as [[] [] [] [] [] [] [] []]; vm_compute; intros H;
    solve [discriminate H | split; reflexivity].
Qed.

Lemma lex_step_well_formed (c : ascii) (state : bool * list token) :
  Forall well_formed (snd state) ->
  Forall well_formed (snd (lex_step c state)).
Proof.
  destruct state as [joined ts]. simpl. intros H.
  destruct (classify c) eqn:E.
  - assumption.
  - pose proof (canonical_numeric c E) as Hc.
    destruct joined; [destruct ts as [|[ds|ls|s] rest]|]; simpl;
      try (constructor; [split; [discriminate | now constructor] | assumption]).
    inversion H as [|? ? Hhd Hrest]; subst. destruct Hhd as [_ Hds].
    constructor; [|assumption]. split; [discriminate | now constructor].
  - pose proof (canonical_letter c E) as Hc.
    destruct joined; [destruct ts as [|[ds|ls|s] rest]|]; simpl;
      try (constructor; [split; [discriminate | now constructor] | assumption]).
    inversion H as [|? ? Hhd Hrest]; subst. destruct Hhd as [_ Hls].
    constructor; [|assumption]. split; [discriminate | now constructor].
  - simpl. constructor; assumption.
Qed.

Lemma lex_well_formed (cs : list ascii) : Forall well_formed (snd (lex cs)).
Proof.
  induction cs as [|c rest IH]; simpl; [constructor|].
  now apply lex_step_well_formed.
Qed.

(** Lexing a run of numeral characters, or of letters, written in front
    of a text the lexer does not join to it. *)
Lemma lex_number_run (ds tail : list ascii) (ts : list token) :
  ds <> [] -> Forall (canonical_in Numeric) ds ->
  lex tail = (false, ts) ->
  lex (ds ++ tail) = (true, Number ds :: ts).
Proof.
  intros Hne Hall Htail.
  induction Hall as [|d rest [Hk Hc] Hrest IH]; [congruence|].
  simpl. destruct rest as [|d' rest'].
  - simpl. rewrite Htail. unfold lex_step. now rewrite Hk, Hc.
  - rewrite IH by discriminate. unfold lex_step. now rewrite Hk, Hc.
Qed.

Lemma lex_word_run (ls tail : list ascii) (ts : list token) :
  ls <> [] -> Forall (canonical_in Letter) ls ->
  lex tail = (false, ts) ->
  lex (ls ++ tail) = (true, Word ls :: ts).
Proof.
  intros Hne Hall Htail.
  induction Hall as [|d rest [Hk Hc] Hrest IH]; [congruence|].
  simpl. destruct rest as [|d' rest'].
  - simpl. rewrite Htail. unfold lex_step. now rewrite Hk, Hc.
  - rewrite IH by discriminate. unfold lex_step. now rewrite Hk, Hc.
Qed.

(** What follows the first token in a rendering is never joined to it. *)
Lemma lex_after_first (t : token) (rest : list token) :
  lex (render rest) = (head_joins rest, rest) ->
  (forall c, t <> Symbol c) ->
  lex (match rest with
       | [] => []
       | t' :: _ => (if spaced t t' then [" "] else []) ++ render rest
       end) = (false, rest).
Proof.
  intros IH Ht. destruct rest as [|t' rest']; [reflexivity|].
  destruct t as [ds|ls|c]; [| |now destruct (Ht c)];
    destruct t' as [ds'|ls'|c']; simpl spaced; cbv iota;
    try (change ([" "] ++ ?l)%list with (" " :: l);
         change (lex (" " :: ?l)) with (lex_step " " (lex l));
         rewrite IH; reflexivity);
    simpl app; exact IH.
Qed.

Lemma lex_render (ts : list token) :
  Forall well_formed ts -> lex (render ts) = (head_joins ts, ts).
Proof.
  induction 1 as [|t rest Ht Hrest IH]; [reflexivity|].
  destruct t as [ds|ls|c].
  - destruct Ht as [Hne Hall]. cbn [render text_of].
    apply lex_number_run; try assumption.
    apply (lex_after_first (Number ds)); [assumption | discriminate].
  - destruct Ht as [Hne Hall]. cbn [render text_of].
    apply lex_word_run; try assumption.
    apply (lex_after_first (Word ls)); [assumption | discriminate].
  - simpl in Ht. cbn [render text_of].
    replace (match rest with
             | [] => []
             | t' :: _ => (if spaced (Symbol c) t' then [" "] else [])
                          ++ render rest
             end)%list with (render rest) by (now destruct rest).
    change (lex ([c] ++ render rest)) with (lex_step c (lex (render rest))).
    rewrite IH. unfold lex_step. now rewrite Ht.
Qed.

Lemma parse_render (cs : list ascii) (ts : list token) :
  parse cs = Some ts -> parse (render ts) = Some ts.
Proof.
  unfold parse. pose proof (lex_well_formed cs) as Hwf.
  destruct (forallb parses (snd (lex cs))) eqn:E; [|discriminate].
  intros H. injection H as <-.
  rewrite (lex_render _ Hwf). simpl. now rewrite E.
Qed.

Lemma normalize_chars_idempotent (cs : list ascii) :
  normalize_chars (normalize_chars cs) = normalize_chars cs.
Proof.
  unfold normalize_chars at 2 3.
  destruct (parse cs) as [ts|] eqn:E; [|reflexivity].
  unfold normalize_chars. now rewrite (parse_render cs ts E).
Qed.

End NormalizerFacts.

Section NormalizerClaim.

Import Normalizer.
Local Open Scope string_scope.

(** C8: the normalizer is idempotent, for every input and question type;
    it is a total function, and an input that does not parse is mapped
    to the empty canonical form. *)
Theorem normalize_idempotent (raw : string) (ty : question_type) :
  normalize (normalize raw ty) ty = normalize raw ty
  /\ (parse (list_ascii_of_string raw) = None -> normalize raw ty = "").
Proof.
  unfold normalize. split.
  - rewrite list_ascii_of_string_of_list_ascii.
    now rewrite normalize_chars_idempotent.
  - intros H. unfold normalize_chars. now rewrite H.
Qed.

Lemma normalize_idempotent_witness :
  parse (list_ascii_of_string "1.2.3") = None
  /\ normalize "1.2.3" calculation = ""
  /\ normalize (normalize " 3,5CM" calculation) calculation
     = normalize " 3,5CM" calculation.
Proof.
  split; [reflexivity|].
  split.
  - apply (proj2 (normalize_idempotent "1.2.3" calculation)). reflexivity.
  - apply (proj1 (normalize_idempotent " 3,5CM" calculation)).
Defined.

End NormalizerClaim.

(** ** Worked examples *)

Section Examples.

Local Open Scope string_scope.

Example normalize_unit :
  Normalizer.normalize "  3,5CM " Normalizer.calculation = "3.5 cm".
Proof. reflexivity. Qed.

Example normalize_fraction :
  Normalizer.normalize "1 / 2" Normalizer.calculation = "1/2".
Proof. reflexivity. Qed.

Example normalize_expression :
  Normalizer.normalize "X  +  1" Normalizer.word_problem = "x+1".
Proof. reflexivity. Qed.

Example normalize_malformed_numeral :
  Normalizer.normalize "1.2.3" Normalizer.calculation = "".
Proof. reflexivity. Qed.

Example search_small_index :
  map VectorIndex.question_id
    (VectorIndex.findSimilarQuestions VectorIndex.signed_square_cosine
       [1; 0]%Q 3 Samples.small_index)
  = ["q1"; "q3"; "q0"].
Proof. reflexivity. Qed.

Example pending_filter_lists_failed :
  SubmissionsPage.filteredSubmissions "pending" ""
    [Samples.failed_unscored; Samples.scored; Samples.pending_unscored]
  = [Samples.failed_unscored; Samples.pending_unscored].
Proof. reflexivity. Qed.

Example generous_reply_is_clamped :
  Correction.points_earned
    (SemanticAgent.ai_correct Samples.generous_service Samples.no_context
       Samples.simplify_question "x+2") = 2%Q
  /\ Correction.error_types
       (SemanticAgent.ai_correct Samples.generous_service Samples.no_context
          Samples.simplify_question "x+2") = [Correction.unit_error].
Proof. split; reflexivity. Qed.

Example blank_question_adds_one_point :
  (ExamForm.totalPoints (ExamForm.addQuestion (ExamForm.addQuestion [])) == 2)%Q.
Proof. reflexivity. Qed.

End Examples.

(** ** At most one correction per submission *)

Section RepositoryFacts.

Import Repository.
Local Open Scope string_scope.







Lemma execute_app (before after : list request) (st : store) :
  execute (before ++ after) st = execute after (execute before st).
Proof. apply fold_left_app. Qed.




End RepositoryFacts.

(** * Further properties of the code *)

(** ** The JavaScript library *)

Section JSLibFacts.

Import JSLib.
Local Open Scope string_scope.

Lemma trimStart_visible (cps : list N) :
  existsb (fun cp => negb (is_white_space cp)) (trimStart cps)
  = existsb (fun cp => negb (is_white_space cp)) cps.
Proof.
  induction cps as [|cp rest IH]; simpl; [reflexivity|].
  destruct (is_white_space cp) eqn:E; simpl.
  - exact IH.
  - now rewrite E.
Qed.

Lemma trimEnd_empty (cps : list N) :
  trimEnd cps = []
  <-> existsb (fun cp => negb (is_white_space cp)) cps = false.
Proof.
  induction cps as [|cp rest IH]; simpl.
  - tauto.
  - destruct (trimEnd rest) as [|d kept] eqn:E.
    + destruct (is_white_space cp); simpl.
      * tauto.
      * split; discriminate.
    + split; [discriminate|]. intros H.
      apply orb_false_iff in H. destruct H as [_ H].
      apply IH in H. discriminate.
Qed.

Lemma truthy_trim (s : string) : nonempty (trim s) = has_visible_char s.
Proof.
  unfold trim, has_visible_char. rewrite <- trimStart_visible.
  destruct (trimEnd (trimStart (code_points s))) as [|cp kept] eqn:E; simpl.
  - apply trimEnd_empty in E. now rewrite E.
  - symmetry. apply not_false_is_true. intros H.
    apply trimEnd_empty in H. congruence.
Qed.

Lemma filter_from_past {A : Type} (index base : nat) (xs : list A) :
  (index < base)%nat ->
  filter_from (fun _ i => negb (i =? index)%nat) base xs = xs.
Proof.
  revert base. induction xs as [|x rest IH]; intros base H; simpl; [reflexivity|].
  destruct (Nat.eqb_spec base index); [lia|]. simpl.
  now rewrite IH by lia.
Qed.

Lemma filter_from_skip {A : Type} (index base : nat) (xs : list A) :
  (base <= index)%nat ->
  filter_from (fun _ i => negb (i =? index)%nat) base xs
  = (firstn (index - base) xs ++ skipn (S (index - base)) xs)%list.
Proof.
  revert base. induction xs as [|x rest IH]; intros base H; simpl.
  - now rewrite firstn_nil.
  - destruct (Nat.eqb_spec base index) as [->|Hne]; simpl.
    + rewrite Nat.sub_diag. simpl. apply filter_from_past. lia.
    + rewrite IH by lia.
      replace (index - base)%nat with (S (index - S base)) by lia.
      reflexivity.
Qed.

End JSLibFacts.

(** ** The exam creation form: edits and submission *)

Section NewExamPageFacts.

Import ExamForm NewExamPage.
Local Open Scope Q_scope.

Lemma sum_points_app (a b : list QuestionForm) :
  sum_of_question_points (a ++ b)
  == sum_of_question_points a + sum_of_question_points b.
Proof.
  induction a as [|q rest IH]; simpl; [ring|]. rewrite IH. ring.
Qed.

Lemma totalPoints_sum (qs : list QuestionForm) :
  totalPoints qs == sum_of_question_points qs.
Proof. unfold totalPoints. rewrite reduce_points_from. ring. Qed.

Lemma split_at (index : nat) (q : QuestionForm) (qs : list QuestionForm) :
  nth_error qs index = Some q ->
  qs = (firstn index qs ++ q :: skipn (S index) qs)%list.
Proof.
  revert index. induction qs as [|x rest IH]; intros [|i] H; simpl in *;
    try discriminate.
  - now injection H as ->.
  - f_equal. now apply IH.
Qed.

Lemma removeQuestion_skip (index : nat) (qs : list QuestionForm) :
  removeQuestion index qs = (firstn index qs ++ skipn (S index) qs)%list.
Proof.
  unfold removeQuestion, JSLib.filter_indexed.
  rewrite filter_from_skip by lia. now rewrite Nat.sub_0_r.
Qed.

(** X1: removing the question at a position the form shows drops exactly
    that question: the others keep their order, the list is one shorter and
    the total loses the points of the removed question. A position past the
    end changes nothing. *)
Theorem removeQuestion_drops_one (index : nat) (qs : list QuestionForm) :
  (forall q, nth_error qs index = Some q ->
     removeQuestion index qs = (firstn index qs ++ skipn (S index) qs)%list
     /\ S (List.length (removeQuestion index qs)) = List.length qs
     /\ totalPoints qs == totalPoints (removeQuestion index qs) + points q)
  /\ (nth_error qs index = None -> removeQuestion index qs = qs).
Proof.
  split.
  - intros q H. rewrite removeQuestion_skip. split; [reflexivity|].
    pose proof (split_at index q qs H) as Hs. split.
    + rewrite Hs at 3. rewrite !length_app. simpl. lia.
    + rewrite !totalPoints_sum. rewrite Hs at 1.
      rewrite !sum_points_app. simpl. ring.
  - intros H. rewrite removeQuestion_skip.
    apply nth_error_None in H.
    rewrite firstn_all2 by lia. rewrite skipn_all2 by lia.
    apply app_nil_r.
Qed.

Lemma removeQuestion_drops_one_witness :
  S (List.length (removeQuestion 1 [blank_question; blank_question; blank_question]))
  = List.length [blank_question; blank_question; blank_question]
  /\ removeQuestion 7 [blank_question] = [blank_question].
Proof.
  split.
  - apply (proj1 (removeQuestion_drops_one 1
             [blank_question; blank_question; blank_question]) blank_question).
    reflexivity.
  - apply (proj2 (removeQuestion_drops_one 7 [blank_question])). reflexivity.
Defined.

(** X2: editing a field of a shown question keeps every other question
    and the length of the list; the total changes by the difference
    between the new and the old points of that question, so an edit of any
    other field leaves it as it is. *)
Theorem updateQuestion_changes_one
    (index : nat) (fv : field_value) (q : QuestionForm) (qs : list QuestionForm) :
  nth_error qs index = Some q ->
  exists updated,
    updateQuestion index fv qs = Some updated
    /\ List.length updated = List.length qs
    /\ nth_error updated index = Some (assign q fv)
    /\ (forall j, j <> index -> nth_error updated j = nth_error qs j)
    /\ totalPoints updated + points q == totalPoints qs + points (assign q fv)
    /\ (match fv with
        | points_value v => totalPoints updated == totalPoints qs - points q + v
        | _ => totalPoints updated == totalPoints qs
        end).
Proof.
  intros H. unfold updateQuestion. rewrite H.
  exists (JSLib.replace_at index (assign q fv) qs). split; [reflexivity|].
  pose proof (split_at index q qs H) as Hs.
  assert (Hi : (index < List.length qs)%nat)
    by (apply nth_error_Some; congruence).
  assert (Hf : List.length (firstn index qs) = index)
    by (rewrite length_firstn; lia).
  assert (Ht : totalPoints (JSLib.replace_at index (assign q fv) qs) + points q
               == totalPoints qs + points (assign q fv)).
  { rewrite !totalPoints_sum. rewrite Hs at 2. unfold JSLib.replace_at.
    rewrite !sum_points_app. simpl. ring. }
  unfold JSLib.replace_at in *.
  split; [|split; [|split; [|split; [exact Ht|]]]].
  - rewrite Hs at 3. rewrite !length_app. reflexivity.
  - rewrite nth_error_app2 by lia. rewrite Hf, Nat.sub_diag. reflexivity.
  - intros j Hj. rewrite Hs at 3.
    destruct (Nat.lt_ge_cases j index) as [Hlt|Hge].
    + now rewrite !nth_error_app1 by lia.
    + rewrite !nth_error_app2 by lia. rewrite Hf.
      destruct (j - index)%nat as [|k] eqn:E; [lia|]. reflexivity.
  - destruct fv; simpl in *; lra.
Qed.

Lemma updateQuestion_changes_one_witness :
  exists updated,
    updateQuestion 0 (points_value 5) [blank_question; blank_question] = Some updated
    /\ totalPoints updated == 6.
Proof.
  destruct (updateQuestion_changes_one 0 (points_value 5) blank_question
              [blank_question; blank_question] eq_refl)
    as (updated & Hu & _ & _ & _ & _ & Ht).
  exists updated. split; [exact Hu|]. rewrite Ht. reflexivity.
Defined.

(** X3: "Add Question" appends one blank question worth one point: the
    questions already entered stay where they are and the total grows by
    exactly one. *)
Theorem addQuestion_appends_one_point (qs : list QuestionForm) :
  List.length (addQuestion qs) = S (List.length qs)
  /\ firstn (List.length qs) (addQuestion qs) = qs
  /\ nth_error (addQuestion qs) (List.length qs) = Some blank_question
  /\ totalPoints (addQuestion qs) == totalPoints qs + 1.
Proof.
  unfold addQuestion. split; [|split; [|split]].
  - rewrite length_app. simpl. lia.
  - rewrite firstn_app, Nat.sub_diag, firstn_all. simpl. apply app_nil_r.
  - rewrite nth_error_app2 by lia. now rewrite Nat.sub_diag.
  - rewrite !totalPoints_sum, sum_points_app. simpl. ring.
Qed.

End NewExamPageFacts.

Section NewExamPageSubmit.

Import ExamForm NewExamPage.
Local Open Scope string_scope.

Lemma array_includes_In (xs : list string) (x : string) :
  JSLib.array_includes xs x = true <-> In x xs.
Proof.
  unfold JSLib.array_includes. rewrite existsb_exists. split.
  - intros (y & Hy & E). apply String.eqb_eq in E. now subst.
  - intros H. exists x. split; [assumption | apply String.eqb_refl].
Qed.

Lemma In_filter_other (skill s : string) (xs : list string) :
  In s (filter (fun t => negb (t =? skill)) xs) <-> In s xs /\ s <> skill.
Proof.
  rewrite filter_In, negb_true_iff, String.eqb_neq. tauto.
Qed.

(** X4: toggling a skill of a shown question flips the membership of that
    skill and of no other, changes no other field and no other question,
    and keeps a list of skills free of duplicates; for a position with no
    question the handler throws a TypeError. *)
Theorem toggleSkill_flips_membership
    (index : nat) (skill : string) (qs : list QuestionForm) :
  (forall q, nth_error qs index = Some q ->
     exists toggled,
       toggleSkill index skill qs
       = inr (JSLib.replace_at index (with_skills q toggled) qs)
       /\ (In skill toggled <-> ~ In skill (skills q))
       /\ (forall s, s <> skill -> (In s toggled <-> In s (skills q)))
       /\ (NoDup (skills q) -> NoDup toggled)
       /\ (totalPoints (JSLib.replace_at index (with_skills q toggled) qs)
           == totalPoints qs)%Q)
  /\ (nth_error qs index = None ->
      toggleSkill index skill qs = inl JSLib.TypeError).
Proof.
  split.
  - intros q H. unfold toggleSkill. rewrite H.
    destruct (JSLib.array_includes (skills q) skill) eqn:E.
    + apply array_includes_In in E.
      exists (filter (fun s => negb (s =? skill)) (skills q)).
      split; [reflexivity|]. split; [|split; [|split]].
      * rewrite In_filter_other. tauto.
      * intros s Hs. rewrite In_filter_other. tauto.
      * apply NoDup_filter.
      * pose proof (split_at index q qs H) as Hs.
        rewrite !totalPoints_sum. rewrite Hs at 2. unfold JSLib.replace_at.
        rewrite !sum_points_app. simpl. reflexivity.
    + assert (Hn : ~ In skill (skills q)).
      { intros Hin. apply array_includes_In in Hin. congruence. }
      exists (skills q ++ [skill])%list.
      split; [reflexivity|]. split; [|split; [|split]].
      * rewrite in_app_iff. simpl. tauto.
      * intros s Hs. rewrite in_app_iff. simpl. split; [|tauto].
        intros [Hin|[Heq|[]]]; [assumption | congruence].
      * intros Hnd. apply NoDup_app; [assumption | repeat constructor; simpl; tauto |].
        intros a Ha [<-|[]]. contradiction.
      * pose proof (split_at index q qs H) as Hs.
        rewrite !totalPoints_sum. rewrite Hs at 2. unfold JSLib.replace_at.
        rewrite !sum_points_app. simpl. reflexivity.
  - intros H. unfold toggleSkill. now rewrite H.
Qed.

Lemma toggleSkill_flips_membership_witness :
  (exists toggled,
     toggleSkill 0 "fractions" [blank_question]
     = inr (JSLib.replace_at 0 (with_skills blank_question toggled) [blank_question])
     /\ (In "fractions" toggled <-> ~ In "fractions" (skills blank_question)))
  /\ toggleSkill 3 "fractions" [blank_question] = inl JSLib.TypeError.
Proof.
  split.
  - destruct (proj1 (toggleSkill_flips_membership 0 "fractions" [blank_question])
                blank_question eq_refl) as (toggled & Ht & Hin & _).
    exists toggled. split; assumption.
  - apply (proj2 (toggleSkill_flips_membership 3 "fractions" [blank_question])).
    reflexivity.
Defined.

Lemma incomplete_test (q : QuestionForm) :
  negb (JSLib.nonempty (JSLib.trim (text q)))
  || negb (JSLib.nonempty (JSLib.trim (correct_answer q)))
  = negb (complete q).
Proof.
  unfold complete. rewrite !truthy_trim.
  destruct (JSLib.has_visible_char (text q)),
           (JSLib.has_visible_char (correct_answer q)); reflexivity.
Qed.

Lemma first_incomplete_found (qs : list QuestionForm) (base i : nat) :
  first_incomplete base qs = Some i ->
  (base <= i)%nat
  /\ (exists q, nth_error qs (i - base) = Some q /\ complete q = false)
  /\ (forall j q, (j < i - base)%nat -> nth_error qs j = Some q ->
                  complete q = true).
Proof.
  revert base. induction qs as [|x rest IH]; intros base H; simpl in H.
  - discriminate.
  - rewrite incomplete_test in H. destruct (complete x) eqn:E; simpl in H.
    + apply IH in H. destruct H as (Hle & (q & Hq & Hc) & Hbefore).
      split; [lia|].
      replace (i - base)%nat with (S (i - S base)) by lia.
      split; [exists q; split; assumption|].
      intros [|j] q' Hj Hq'; simpl in Hq'.
      * now injection Hq' as <-.
      * apply (Hbefore j q'); [lia | assumption].
    + injection H as <-. rewrite Nat.sub_diag. split; [lia|].
      split; [exists x; split; [reflexivity | assumption]|].
      intros j q' Hj. lia.
Qed.

Lemma first_incomplete_none (qs : list QuestionForm) (base : nat) :
  first_incomplete base qs = None <-> forallb complete qs = true.
Proof.
  revert base. induction qs as [|x rest IH]; intros base; simpl.
  - tauto.
  - rewrite incomplete_test. destruct (complete x); simpl.
    + apply IH.
    + split; discriminate.
Qed.

(** X5: the form is sent exactly when the title holds a visible character,
    there is at least one question, and the text and the correct answer of
    every question hold a visible character; what is sent is the state of
    the form with the subject "mathematics". Otherwise one message is
    shown: for the title, then for an empty list, then for the first
    incomplete question, named by its position counted from one. *)
Theorem handleSubmit_validates (st : form_state) :
  match handleSubmit st with
  | mutate payload =>
      JSLib.has_visible_char (title st) = true
      /\ questions st <> []
      /\ forallb complete (questions st) = true
      /\ payload = mkPayload (title st) (gradeLevel st) "mathematics"
                     (durationMinutes st) (questions st)
  | toast_error message =>
      (JSLib.has_visible_char (title st) = false
       /\ message = "Please enter a title")
      \/ (JSLib.has_visible_char (title st) = true
          /\ questions st = []
          /\ message = "Please add at least one question")
      \/ (exists i q,
            JSLib.has_visible_char (title st) = true
            /\ nth_error (questions st) i = Some q
            /\ complete q = false
            /\ (forall j q', (j < i)%nat ->
                  nth_error (questions st) j = Some q' -> complete q' = true)
            /\ message
               = "Please complete question " ++ JSLib.string_of_nat (i + 1))
  end.
Proof.
  unfold handleSubmit. rewrite truthy_trim.
  destruct (JSLib.has_visible_char (title st)) eqn:Et; simpl.
  - destruct (questions st) as [|q0 rest] eqn:Eq; simpl Nat.eqb; cbv iota.
    + right. left. auto.
    + destruct (first_incomplete 0 (q0 :: rest)) as [i|] eqn:Ef.
      * right. right. apply first_incomplete_found in Ef.
        rewrite Nat.sub_0_r in Ef. destruct Ef as (_ & (q & Hq & Hc) & Hb).
        exists i, q. repeat split; assumption.
      * apply first_incomplete_none in Ef.
        repeat split; [discriminate | assumption].
  - left. auto.
Qed.



End NewExamPageSubmit.

(** ** The submissions list: statistics, badges and search *)

Section SubmissionsListFacts.

Import SubmissionsPage SubmissionsList.
Local Open Scope Q_scope.

Lemma reduce_scores_from (submissions : list item) (acc : Q) :
  JS.reduce (fun a s => a + score_or_zero (score s)) acc submissions
  == acc + sum_of_scores submissions.
Proof.
  unfold JS.reduce. revert acc.
  induction submissions as [|s rest IH]; intros acc; simpl.
  - ring.
  - rewrite IH. ring.
Qed.

Lemma inject_length_cons (s : item) (rest : list item) :
  inject_Z (Z.of_nat (List.length (s :: rest)))
  == inject_Z (Z.of_nat (List.length rest)) + 1.
Proof.
  simpl List.length. rewrite Nat2Z.inj_succ. unfold Z.succ.
  now rewrite inject_Z_plus.
Qed.

Lemma inject_length_pos (s : item) (rest : list item) :
  0 < inject_Z (Z.of_nat (List.length (s :: rest))).
Proof.
  change 0 with (inject_Z 0). rewrite <- Zlt_Qlt. simpl List.length. lia.
Qed.

Lemma sum_of_scores_bounds (submissions : list item) :
  Forall score_in_range submissions ->
  0 <= sum_of_scores submissions
  /\ sum_of_scores submissions
     <= 100 * inject_Z (Z.of_nat (List.length submissions)).
Proof.
  induction 1 as [|s rest Hs _ IH].
  - simpl. split; [apply Qle_refl | discriminate].
  - rewrite inject_length_cons. simpl sum_of_scores.
    unfold score_in_range in Hs.
    destruct (score s); simpl score_or_zero; lra.
Qed.

(** X6: the average shown above the list divides the sum of the scores by
    the number of all submissions, so a submission without a score counts
    as a zero; the average of an empty list is 0, and with every score
    between 0 and 100 the average lies between 0 and 100. *)
Theorem avgScore_counts_unscored_as_zero (submissions : list item) :
  avgScore [] = 0
  /\ avgScore submissions * inject_Z (Z.of_nat (List.length submissions))
     == sum_of_scores submissions
  /\ (Forall score_in_range submissions -> 0 <= avgScore submissions <= 100).
Proof.
  split; [reflexivity|]. unfold avgScore.
  destruct submissions as [|s rest].
  - simpl. split; [reflexivity|]. intros _. split; [apply Qle_refl | discriminate].
  - change (0 <? List.length (s :: rest))%nat with true. cbv iota.
    pose proof (inject_length_pos s rest) as Hpos.
    rewrite reduce_scores_from.
    split.
    + field. lra.
    + intros H. apply sum_of_scores_bounds in H. destruct H as [Hlo Hhi].
      split.
      * apply Qle_shift_div_l; [assumption|]. lra.
      * apply Qle_shift_div_r; [assumption|]. lra.
Qed.

End SubmissionsListFacts.

Section SubmissionsDisplayFacts.

Import SubmissionsPage SubmissionsList.
Local Open Scope string_scope.

Lemma avgScore_counts_unscored_as_zero_witness :
  Forall score_in_range [Samples.failed_unscored; Samples.scored]
  /\ (0 <= avgScore [Samples.failed_unscored; Samples.scored] <= 100)%Q
  /\ (avgScore [Samples.failed_unscored; Samples.scored] == 40)%Q.
Proof.
  assert (H : Forall score_in_range [Samples.failed_unscored; Samples.scored]).
  { repeat constructor; simpl; unfold Qle; simpl; lia. }
  split; [exact H|]. split; [|reflexivity].
  apply (proj2 (proj2 (avgScore_counts_unscored_as_zero
                         [Samples.failed_unscored; Samples.scored]))).
  exact H.
Defined.

(** X7: badge and icon of an entry agree, and both follow the score before
    the stored status. For a score that is present in the payload (a number
    or null) the badge shows the score exactly when the "corrected" filter
    lists the entry; an entry whose score field is absent is listed as
    corrected and yet gets the badge of its stored status. *)
Theorem badge_follows_score (it : item) :
  icon_for (getStatusBadge it) = getStatusIcon it
  /\ (score it <> ScoreUndefined ->
      shows_score (getStatusBadge it) = matchesStatus "corrected" it
      /\ negb (shows_score (getStatusBadge it)) = matchesStatus "pending" it)
  /\ (score it = ScoreUndefined ->
      matchesStatus "corrected" it = true
      /\ shows_score (getStatusBadge it) = false
      /\ getStatusBadge it = status_badge (status it)).
Proof.
  rewrite matchesStatus_corrected, matchesStatus_pending.
  unfold getStatusBadge, getStatusIcon, status_badge.
  destruct (score it) eqn:E; simpl.
  - split; [|split; [congruence | intros _; destruct (status it) as [s|];
                                  [destruct (s =? "corrected"), (s =? "pending")|];
                                  auto]].
    destruct (status it) as [s|]; [|reflexivity].
    destruct (s =? "corrected"); [reflexivity|].
    destruct (s =? "pending"); reflexivity.
  - split; [|split; [|discriminate]].
    + destruct (status it) as [s|]; [|reflexivity].
      destruct (s =? "corrected"); [reflexivity|].
      destruct (s =? "pending"); reflexivity.
    + intros _. destruct (status it) as [s|]; [|auto].
      destruct (s =? "corrected"); [auto|].
      destruct (s =? "pending"); auto.
  - split; [reflexivity|]. split; [auto | discriminate].
Qed.

Lemma badge_follows_score_witness :
  shows_score (getStatusBadge Samples.failed_unscored)
  = matchesStatus "corrected" Samples.failed_unscored
  /\ getStatusBadge Samples.failed_unscored = in_progress_badge.
Proof.
  split; [|reflexivity].
  apply (proj1 (proj2 (badge_follows_score Samples.failed_unscored))).
  discriminate.
Defined.

Lemma Qle_bool_false (a b : Q) : Qle_bool a b = false -> (b < a)%Q.
Proof.
  intros H. apply Qnot_le_lt. intros Hle. apply Qle_bool_iff in Hle. congruence.
Qed.

(** X8: the colour of a score badge never drops when the score rises; a
    score of 80 or more is emerald and a score below 40 is red. *)
Theorem score_band_monotone (a b : Q) :
  ((a <= b)%Q -> (band_rank (score_band a) <= band_rank (score_band b))%nat)
  /\ (score_band a = emerald <-> (80 <= a)%Q)
  /\ (score_band a = red <-> (a < 40)%Q).
Proof.
  unfold score_band. split; [|split].
  - intros H.
    destruct (Qle_bool 80 a) eqn:A1; [apply Qle_bool_iff in A1 | apply Qle_bool_false in A1];
    (destruct (Qle_bool 60 a) eqn:A2; [apply Qle_bool_iff in A2 | apply Qle_bool_false in A2]);
    (destruct (Qle_bool 40 a) eqn:A3; [apply Qle_bool_iff in A3 | apply Qle_bool_false in A3]);
    (destruct (Qle_bool 80 b) eqn:B1; [apply Qle_bool_iff in B1 | apply Qle_bool_false in B1]);
    (destruct (Qle_bool 60 b) eqn:B2; [apply Qle_bool_iff in B2 | apply Qle_bool_false in B2]);
    (destruct (Qle_bool 40 b) eqn:B3; [apply Qle_bool_iff in B3 | apply Qle_bool_false in B3]);
    simpl; try lia; exfalso; lra.
  - destruct (Qle_bool 80 a) eqn:A1; [apply Qle_bool_iff in A1 | apply Qle_bool_false in A1].
    + tauto.
    + split; [|intros H; exfalso; lra].
      destruct (Qle_bool 60 a); [discriminate|].
      destruct (Qle_bool 40 a); discriminate.
  - destruct (Qle_bool 80 a) eqn:A1; [apply Qle_bool_iff in A1 | apply Qle_bool_false in A1];
    (destruct (Qle_bool 60 a) eqn:A2; [apply Qle_bool_iff in A2 | apply Qle_bool_false in A2]);
    (destruct (Qle_bool 40 a) eqn:A3; [apply Qle_bool_iff in A3 | apply Qle_bool_false in A3]);
    split; intros H; try discriminate; try reflexivity; try assumption; exfalso; lra.
Qed.

Lemma score_band_monotone_witness :
  (band_rank (score_band 59) <= band_rank (score_band 60))%nat.
Proof.
  apply (proj1 (score_band_monotone 59 60)). unfold Qle; simpl; lia.
Defined.

Lemma prefix_app (a s : string) :
  String.prefix a s = true <-> exists b, s = a ++ b.
Proof.
  revert s. induction a as [|c a IH]; intros s; destruct s as [|d s]; simpl.
  - split; [intros _; now exists "" | reflexivity].
  - split; [intros _; now exists (String d s) | reflexivity].
  - split; [discriminate | intros [b H]; discriminate].
  - destruct (Ascii.ascii_dec c d) as [->|Hne].
    + rewrite IH. split; intros [b H]; exists b.
      * now subst.
      * now injection H.
    + split; [discriminate|]. intros [b H]. injection H as H1 _. congruence.
Qed.

End SubmissionsDisplayFacts.

(** ** The sidebar *)

Section SidebarFacts.

Import Sidebar.
Local Open Scope string_scope.

Lemma prefix_refl (s : string) : String.prefix s s = true.
Proof. apply prefix_app. exists "". induction s; simpl; congruence. Qed.

Lemma prefix_of_common (a b p : string) :
  String.prefix a p = true -> String.prefix b p = true ->
  String.prefix a b = true \/ String.prefix b a = true.
Proof.
  revert b p. induction a as [|c a IH]; intros b p Ha Hb.
  - left. destruct b; reflexivity.
  - destruct b as [|d b]; [right; reflexivity|].
    destruct p as [|e p]; [discriminate|]. simpl in *.
    destruct (Ascii.ascii_dec c e) as [->|]; [|discriminate].
    destruct (Ascii.ascii_dec d e) as [->|]; [|discriminate].
    destruct (Ascii.ascii_dec e e); [|congruence].
    now apply (IH b p).
Qed.

Lemma isActive_prefix (pathname href : string) :
  isActive pathname href = true -> String.prefix href pathname = true.
Proof.
  unfold isActive. intros H. apply orb_true_iff in H. destruct H as [H|H].
  - apply String.eqb_eq in H. subst. apply prefix_refl.
  - apply andb_true_iff in H. tauto.
Qed.

Lemma isActive_root (pathname : string) :
  isActive pathname "/" = true <-> pathname = "/".
Proof.
  unfold isActive. simpl. rewrite orb_false_r. apply String.eqb_eq.
Qed.

Lemma hrefs_prefix_free (a b : string) :
  In a navigation_hrefs -> In b navigation_hrefs ->
  a <> "/" -> b <> "/" -> String.prefix a b = true -> a = b.
Proof.
  unfold navigation_hrefs. simpl.
  intros Ha Hb Hra Hrb H.
  repeat (destruct Ha as [<-|Ha]; [|]); try contradiction;
    repeat (destruct Hb as [<-|Hb]; [|]); try contradiction;
    try reflexivity; try discriminate H; congruence.
Qed.

Lemma active_unique (pathname a b : string) :
  In a navigation_hrefs -> In b navigation_hrefs ->
  isActive pathname a = true -> isActive pathname b = true -> a = b.
Proof.
  intros Ia Ib Ha Hb.
  destruct (String.eqb_spec a "/") as [->|Na].
  - apply isActive_root in Ha. subst pathname.
    unfold navigation_hrefs in Ib. simpl in Ib.
    repeat (destruct Ib as [<-|Ib]; [try reflexivity; discriminate Hb|]).
    contradiction.
  - destruct (String.eqb_spec b "/") as [->|Nb].
    + apply isActive_root in Hb. subst pathname.
      unfold navigation_hrefs in Ia. simpl in Ia.
      repeat (destruct Ia as [<-|Ia]; [try reflexivity; discriminate Ha|]).
      contradiction.
    + apply isActive_prefix in Ha. apply isActive_prefix in Hb.
      destruct (prefix_of_common a b pathname Ha Hb) as [H|H].
      * now apply hrefs_prefix_free.
      * symmetry. now apply hrefs_prefix_free.
Qed.

(** X10: whatever the path, the sidebar highlights at most one entry; Home
    is highlighted on "/" only, and every other entry on each path that
    starts with its address. *)
Theorem sidebar_highlights_at_most_one (pathname : string) :
  (List.length (active_items pathname) <= 1)%nat
  /\ (isActive pathname "/" = true <-> pathname = "/")
  /\ (forall href rest,
        In href navigation_hrefs -> href <> "/" ->
        isActive (href ++ rest) href = true).
Proof.
  split; [|split].
  - assert (U : forall a b, In a navigation_hrefs -> In b navigation_hrefs ->
                  a <> b -> isActive pathname a = true ->
                  isActive pathname b = true -> False).
    { intros a b Ia Ib Hne Ha Hb. apply Hne.
      now apply (active_unique pathname). }
    unfold active_items, navigation_hrefs in *. simpl in U |- *.
    destruct (isActive pathname "/") eqn:E1;
    destruct (isActive pathname "/exams") eqn:E2;
    destruct (isActive pathname "/students") eqn:E3;
    destruct (isActive pathname "/submissions") eqn:E4;
    destruct (isActive pathname "/graph") eqn:E5;
    destruct (isActive pathname "/statistics") eqn:E6;
    simpl; try lia; exfalso;
    repeat match goal with
    | Ha : isActive pathname ?a = true, Hb : isActive pathname ?b = true |- _ =>
        apply (U a b); [tauto | tauto | discriminate | exact Ha | exact Hb]
    end.
  - apply isActive_root.
  - intros href rest Hin Hne. unfold isActive.
    apply orb_true_iff. right. apply andb_true_iff. split.
    + apply negb_true_iff. now apply String.eqb_neq.
    + apply prefix_app. now exists rest.
Qed.

End SidebarFacts.

(** ** The progress bar: monotonicity *)

Section ProgressBarMonotone.

Import ProgressBar.
Local Open Scope Q_scope.

Lemma ratio_monotone (a b max : Q) :
  0 < max -> a <= b -> a / max * 100 <= b / max * 100.
Proof.
  intros Hm H. unfold Qdiv.
  assert (Hk : 0 < / max) by now apply Qinv_lt_0_compat.
  apply Qmult_le_compat_r; [|discriminate].
  apply Qmult_le_compat_r; [assumption | now apply Qlt_le_weak].
Qed.

Lemma ratio_full (value max : Q) :
  0 < max -> (100 <= value / max * 100 <-> max <= value).
Proof.
  intros Hm. split; intros H.
  - assert (H1 : 1 <= value / max) by lra.
    assert (E : value == value / max * max) by (field; lra).
    rewrite E. setoid_replace max with (1 * max) at 1 by ring.
    apply Qmult_le_compat_r; [assumption | now apply Qlt_le_weak].
  - assert (H1 : 1 <= value / max).
    { apply Qle_shift_div_l; [assumption | lra]. }
    lra.
Qed.

Lemma ratio_empty (value max : Q) :
  0 < max -> (value / max * 100 <= 0 <-> value <= 0).
Proof.
  intros Hm. split; intros H.
  - assert (H1 : value / max <= 0) by lra.
    assert (E : value == value / max * max) by (field; lra).
    rewrite E. setoid_replace 0 with (0 * max) by ring.
    apply Qmult_le_compat_r; [assumption | now apply Qlt_le_weak].
  - assert (H1 : value / max <= 0).
    { apply Qle_shift_div_r; [assumption | lra]. }
    lra.
Qed.

(** X11: for a positive [max] the fill width never shrinks when the value
    grows; the bar is full exactly from [value = max] on and empty exactly
    up to [value = 0]. *)
Theorem progress_width_monotone (a b max : Q) :
  0 < max ->
  (a <= b -> percentage_of a max <= percentage_of b max)
  /\ (percentage_of a max == 100 <-> max <= a)
  /\ (percentage_of a max == 0 <-> a <= 0).
Proof.
  intros Hm.
  pose proof (ratio_full a max Hm) as Hfull.
  pose proof (ratio_empty a max Hm) as Hempty.
  unfold percentage_of. split; [|split].
  - intros H. pose proof (ratio_monotone a b max Hm H) as Hr.
    set (x := a / max * 100) in *. set (y := b / max * 100) in *.
    destruct (Math_max_spec 0 x) as [[X1 ->]|[X1 ->]];
      destruct (Math_max_spec 0 y) as [[Y1 ->]|[Y1 ->]];
      match goal with
      | |- JS.Math_min 100 ?u <= JS.Math_min 100 ?v =>
          destruct (Math_min_spec 100 u) as [[U1 EU]|[U1 EU]];
          destruct (Math_min_spec 100 v) as [[V1 EV]|[V1 EV]];
          rewrite ?EU, ?EV
      end; lra.
  - set (x := a / max * 100) in *.
    destruct (Math_max_spec 0 x) as [[X1 ->]|[X1 ->]];
      match goal with
      | |- JS.Math_min 100 ?u == _ <-> _ =>
          destruct (Math_min_spec 100 u) as [[U1 ->]|[U1 ->]]
      end; split; intros H; try lra;
      try (apply Hfull; lra); try (apply Hfull in H; lra).
  - set (x := a / max * 100) in *.
    destruct (Math_max_spec 0 x) as [[X1 ->]|[X1 ->]];
      match goal with
      | |- JS.Math_min 100 ?u == _ <-> _ =>
          destruct (Math_min_spec 100 u) as [[U1 ->]|[U1 ->]]
      end; split; intros H; try lra;
      try (apply Hempty; lra); try (apply Hempty in H; lra).
Qed.

Lemma progress_width_monotone_witness :
  0 < 40
  /\ percentage_of 10 40 <= percentage_of 30 40
  /\ (percentage_of 55 40 == 100 <-> 40 <= 55).
Proof.
  split; [reflexivity|].
  destruct (progress_width_monotone 10 30 40 eq_refl) as (H1 & _ & _).
  destruct (progress_width_monotone 55 30 40 eq_refl) as (_ & H2 & _).
  split; [apply H1; discriminate | exact H2].
Defined.

End ProgressBarMonotone.

(** ** The correction of a whole submission *)

Section CorrectionRunFacts.

Import Correction CorrectionRun.

Variable compare : string -> string -> bool.
Variable agent : Question -> string -> QuestionCorrection.

Lemma correct_answers_from (answers : list (Question * string)) (log : list event) :
  correct_answers compare agent answers log
  = (map (correction_of compare agent) answers,
     (log ++ invocations (not_found_correct compare answers))%list).
Proof.
  revert log. induction answers as [|[question answer] rest IH]; intros log.
  - simpl. unfold ret. now rewrite app_nil_r.
  - cbn [correct_answers]. unfold bind at 1.
    unfold correction_of at 1, not_found_correct. cbn [map filter fst snd].
    destruct (compare answer (q_correct_answer question)) eqn:E; cbn [negb].
    + rewrite (correct_question_correct compare agent question answer log E).
      unfold bind at 1. rewrite IH. reflexivity.
    + rewrite (correct_question_not_correct compare agent question answer log E).
      unfold bind at 1. rewrite IH. unfold ret, invocations.
      cbn [map fst snd]. now rewrite <- app_assoc.
Qed.

End CorrectionRunFacts.

Section CorrectionRunClaims.

Import Correction CorrectionRun.

(** X12: correcting the answers of a submission gives one QuestionCorrection
    per answer, in order, and invokes the agent exactly once for each answer
    the comparison does not find correct, in the order of the answers, and
    for no other; a submission whose answers all compare correct never
    reaches the agent. *)
Theorem correct_answers_invokes_agent_per_miss
    (compare : string -> string -> bool)
    (agent : Question -> string -> QuestionCorrection)
    (answers : list (Question * string)) :
  let result := run (correct_answers compare agent answers) in
  fst result = map (correction_of compare agent) answers
  /\ List.length (fst result) = List.length answers
  /\ snd result = invocations (not_found_correct compare answers)
  /\ (List.length (snd result) <= List.length answers)%nat
  /\ (snd result = []
      <-> forall question answer,
            In (question, answer) answers ->
            compare answer (q_correct_answer question) = true).
Proof.
  intros result. subst result. unfold run.
  rewrite correct_answers_from. cbn [fst snd app].
  split; [reflexivity|]. split; [apply length_map|].
  split; [reflexivity|]. split.
  - unfold invocations, not_found_correct. rewrite length_map.
    apply filter_length_le.
  - unfold invocations, not_found_correct. split.
    + intros H question answer Hin.
      destruct (compare answer (q_correct_answer question)) eqn:E;
        [reflexivity|].
      assert (Hf : In (question, answer)
                     (filter (fun qa => negb (compare (snd qa)
                                                (q_correct_answer (fst qa))))
                        answers)).
      { apply filter_In. split; [assumption|]. simpl. now rewrite E. }
      apply map_eq_nil in H. rewrite H in Hf. contradiction.
    + intros H.
      replace (filter (fun qa => negb (compare (snd qa)
                                         (q_correct_answer (fst qa)))) answers)
        with (@nil (Question * string)); [reflexivity|].
      symmetry. induction answers as [|[q a] rest IH]; [reflexivity|].
      simpl. rewrite (H q a) by (now left). simpl.
      apply IH. intros q' a' Hin. apply H. now right.
Qed.

End CorrectionRunClaims.

(** ** The storage step: what it adds and what it keeps unique *)

Section GraphCountFacts.

Import Graph GraphCounts.
Local Open Scope nat_scope.
Local Open Scope string_scope.

Lemma count_nodes_create (l l' : label) (key : string) (g : graph) :
  count_nodes l (snd (create_node l' key g))
  = count_nodes l g + (if label_eqb l' l then 1 else 0).
Proof.
  unfold count_nodes. simpl. rewrite filter_app, length_app. simpl.
  destruct (label_eqb l' l); reflexivity.
Qed.

Lemma count_nodes_merge (l l' : label) (key : string) (g : graph) :
  label_eqb l' l = false ->
  count_nodes l (snd (merge_node l' key g)) = count_nodes l g.
Proof.
  intros H. unfold merge_node. destruct (match_node l' key g); [reflexivity|].
  rewrite count_nodes_create, H. lia.
Qed.

Lemma count_nodes_merge_le (l l' : label) (key : string) (g : graph) :
  count_nodes l g <= count_nodes l (snd (merge_node l' key g))
  /\ count_nodes l (snd (merge_node l' key g)) <= count_nodes l g + 1.
Proof.
  unfold merge_node. destruct (match_node l' key g); [simpl; lia|].
  rewrite count_nodes_create. destruct (label_eqb l' l); lia.
Qed.

Lemma rels_merge (l : label) (key : string) (g : graph) :
  rels (snd (merge_node l key g)) = rels g.
Proof. unfold merge_node. now destruct (match_node l key g). Qed.

Lemma count_rels_create (k k' : rel_type) (a b : nat) (g : graph) :
  count_rels k (create_rel a k' b g)
  = count_rels k g + (if rel_type_eqb k' k then 1 else 0).
Proof.
  unfold count_rels. simpl. rewrite filter_app, length_app. simpl.
  destruct (rel_type_eqb k' k); reflexivity.
Qed.

Lemma link_errors_counts (names : list string) (qc : nat) (g : graph) :
  (forall l, label_eqb ErrorType l = false ->
     count_nodes l (link_errors qc names g) = count_nodes l g)
  /\ (count_nodes ErrorType g <= count_nodes ErrorType (link_errors qc names g)
      /\ count_nodes ErrorType (link_errors qc names g)
         <= count_nodes ErrorType g + List.length names)
  /\ (forall k, count_rels k (link_errors qc names g)
       = count_rels k g
         + (if rel_type_eqb HAS_ERROR k then List.length names else 0)).
Proof.
  revert g. induction names as [|name rest IH]; intros g;
    cbn [link_errors List.length].
  - repeat split; intros; try lia. destruct (rel_type_eqb HAS_ERROR k); lia.
  - pose proof (count_nodes_merge_le ErrorType ErrorType name g) as Hm.
    pose proof (rels_merge ErrorType name g) as Hr.
    pose proof (fun l H => count_nodes_merge l ErrorType name g H) as Hn.
    destruct (merge_node ErrorType name g) as [e g1]. cbn [snd] in Hm, Hr, Hn.
    destruct (IH (create_rel qc HAS_ERROR e g1)) as (I1 & I2 & I3).
    assert (N : forall l, count_nodes l (create_rel qc HAS_ERROR e g1)
                          = count_nodes l g1) by reflexivity.
    assert (R : count_rels HAS_ERROR g1 = count_rels HAS_ERROR g
                /\ forall k, count_rels k g1 = count_rels k g).
    { unfold count_rels. now rewrite Hr. }
    split; [|split].
    + intros l Hl. rewrite (I1 l Hl), N. now apply Hn.
    + rewrite N in I2. lia.
    + intros k. rewrite I3, count_rels_create. rewrite (proj2 R k).
      destruct (rel_type_eqb HAS_ERROR k); lia.
Qed.

Lemma total_errors_cons (r : question_result) (rest : list question_result) :
  total_errors (r :: rest) = List.length (qc_errors r) + total_errors rest.
Proof. reflexivity. Qed.

Lemma store_question_results_counts (results : list question_result)
    (c : nat) (g : graph) :
  (forall l, label_eqb ErrorType l = false ->
     count_nodes l (store_question_results c results g)
     = count_nodes l g
       + (if label_eqb QuestionCorrection l then List.length results else 0))
  /\ (count_nodes ErrorType g
        <= count_nodes ErrorType (store_question_results c results g)
      /\ count_nodes ErrorType (store_question_results c results g)
         <= count_nodes ErrorType g + total_errors results)
  /\ (forall k, count_rels k (store_question_results c results g)
       = count_rels k g
         + (if rel_type_eqb INCLUDES k then List.length results else 0)
         + (if rel_type_eqb HAS_ERROR k then total_errors results else 0)).
Proof.
  revert g. induction results as [|r rest IH]; intros g;
    cbn [store_question_results List.length create_node].
  - change (total_errors []) with 0. repeat split; intros; try lia.
    + destruct (label_eqb QuestionCorrection l); lia.
    + destruct (rel_type_eqb INCLUDES k), (rel_type_eqb HAS_ERROR k); lia.
  - rewrite total_errors_cons.
    set (g1 := mkGraph (nodes g ++ [mkNode QuestionCorrection (qc_id r)]) (rels g)).
    set (g2 := create_rel c INCLUDES (List.length (nodes g)) g1).
    destruct (link_errors_counts (qc_errors r) (List.length (nodes g)) g2)
      as (L1 & L2 & L3).
    destruct (IH (link_errors (List.length (nodes g)) (qc_errors r) g2))
      as (I1 & I2 & I3).
    assert (N : forall l, count_nodes l g2
                = count_nodes l g + (if label_eqb QuestionCorrection l then 1 else 0)).
    { intros l. apply (count_nodes_create l QuestionCorrection (qc_id r) g). }
    assert (R : forall k, count_rels k g2
                = count_rels k g + (if rel_type_eqb INCLUDES k then 1 else 0)).
    { intros k. unfold g2. rewrite count_rels_create. reflexivity. }
    split; [|split].
    + intros l Hl. rewrite (I1 l Hl), (L1 l Hl), N.
      destruct (label_eqb QuestionCorrection l); lia.
    + pose proof (N ErrorType) as NE. simpl in NE. lia.
    + intros k. rewrite I3, L3, R.
      destruct (rel_type_eqb INCLUDES k), (rel_type_eqb HAS_ERROR k); lia.
Qed.

(** X13: for a submission that exists, the storage step creates what the
    chart lists: one more Correction node and one more HAS_CORRECTION
    relationship, one more QuestionCorrection node per answer, one more
    HAS_ERROR relationship per identified error, and at most as many new
    ErrorType nodes as identified errors (MERGE reuses a stored one). *)
Theorem store_correction_creates_chart_items
    (submission_id : string) (data : correction_data) (g : graph) (s : nat) :
  match_node Submission submission_id g = Some s ->
  let g' := store_correction submission_id data g in
  let answers := List.length (question_results data) in
  let errors := total_errors (question_results data) in
  count_nodes Correction g' = count_nodes Correction g + 1
  /\ count_rels HAS_CORRECTION g' = count_rels HAS_CORRECTION g + 1
  /\ count_nodes QuestionCorrection g' = count_nodes QuestionCorrection g + answers
  /\ count_rels HAS_ERROR g' = count_rels HAS_ERROR g + errors
  /\ count_nodes ErrorType g <= count_nodes ErrorType g'
  /\ count_nodes ErrorType g' <= count_nodes ErrorType g + errors.
Proof.
  intros H g' answers errors. subst g' answers errors.
  rewrite (store_correction_unfold submission_id data g s H).
  destruct (store_question_results_counts (question_results data)
              (List.length (nodes g)) (linked s data g)) as (C1 & C2 & C3).
  assert (N : forall l, count_nodes l (linked s data g)
                = count_nodes l g + (if label_eqb Correction l then 1 else 0)).
  { intros l. apply (count_nodes_create l Correction (correction_id data) g). }
  assert (R : forall k, count_rels k (linked s data g)
                = count_rels k g + (if rel_type_eqb HAS_CORRECTION k then 1 else 0)).
  { intros k. unfold linked. rewrite count_rels_create. reflexivity. }
  pose proof (N ErrorType) as NE. simpl in NE.
  split; [|split; [|split; [|split; [|split]]]].
  - rewrite C1, N by reflexivity. simpl. lia.
  - rewrite C3, R. simpl. lia.
  - rewrite C1, N by reflexivity. simpl. lia.
  - rewrite C3, R. simpl. lia.
  - lia.
  - lia.
Qed.

Lemma store_correction_creates_chart_items_witness :
  match_node Submission "sub-1" Samples.one_submission = Some 0
  /\ count_nodes Correction
       (store_correction "sub-1" Samples.second_run Samples.one_submission)
     = count_nodes Correction Samples.one_submission + 1
  /\ count_rels HAS_ERROR
       (store_correction "sub-1" Samples.second_run Samples.one_submission)
     = count_rels HAS_ERROR Samples.one_submission
       + total_errors (question_results Samples.second_run).
Proof.
  split; [reflexivity|].
  destruct (store_correction_creates_chart_items "sub-1" Samples.second_run
              Samples.one_submission 0 eq_refl)
    as (H1 & _ & _ & H2 & _).
  split; [exact H1 | exact H2].
Defined.

End GraphCountFacts.

Section GraphUniqueFacts.

Import Graph GraphCounts.
Local Open Scope nat_scope.
Local Open Scope string_scope.

Lemma label_eqb_eq (a b : label) : label_eqb a b = true <-> a = b.
Proof. destruct a, b; simpl; split; intros H; congruence. Qed.

Lemma find_from_none (l : label) (key : string) (ns : list node) (pos : nat) :
  find_from l key ns pos = None ->
  forall i n, nth_error ns i = Some n -> is_node l key n = false.
Proof.
  revert pos. induction ns as [|x rest IH]; intros pos H i n Hn.
  - destruct i; discriminate.
  - simpl in H. destruct (is_node l key x) eqn:E; [discriminate|].
    destruct i as [|i]; simpl in Hn.
    + now injection Hn as <-.
    + now apply (IH (S pos) H i n).
Qed.

Lemma unique_keys_same_nodes (l : label) (g g' : graph) :
  nodes g' = nodes g -> unique_keys l g -> unique_keys l g'.
Proof. unfold unique_keys. intros ->. auto. Qed.

Lemma unique_keys_append (l : label) (g : graph) (n : node) (rs : list rel) :
  unique_keys l g ->
  (node_label n = l ->
   forall i m, nth_error (nodes g) i = Some m -> node_label m = l ->
               node_key m <> node_key n) ->
  unique_keys l (mkGraph (nodes g ++ [n]) rs).
Proof.
  intros U Hnew i j a b Ha Hb La Lb Hk. simpl in Ha, Hb.
  destruct (Nat.lt_ge_cases i (List.length (nodes g))) as [Hi|Hi];
    destruct (Nat.lt_ge_cases j (List.length (nodes g))) as [Hj|Hj].
  - rewrite nth_error_app1 in Ha, Hb by assumption.
    now apply (U i j a b).
  - rewrite nth_error_app1 in Ha by assumption.
    rewrite nth_error_app2 in Hb by assumption.
    destruct (j - List.length (nodes g)) as [|k] eqn:E; simpl in Hb;
      [|destruct k; discriminate].
    injection Hb as <-. exfalso. now apply (Hnew Lb i a).
  - rewrite nth_error_app2 in Ha by assumption.
    rewrite nth_error_app1 in Hb by assumption.
    destruct (i - List.length (nodes g)) as [|k] eqn:E; simpl in Ha;
      [|destruct k; discriminate].
    injection Ha as <-. exfalso. apply (Hnew La j b Hb Lb). congruence.
  - rewrite nth_error_app2 in Ha, Hb by assumption.
    destruct (i - List.length (nodes g)) as [|k] eqn:E; simpl in Ha;
      [|destruct k; discriminate].
    destruct (j - List.length (nodes g)) as [|k'] eqn:E'; simpl in Hb;
      [|destruct k'; discriminate].
    lia.
Qed.

Lemma create_node_unique (l l' : label) (key : string) (g : graph) :
  l' <> l -> unique_keys l g -> unique_keys l (snd (create_node l' key g)).
Proof.
  intros Hne U. simpl. apply unique_keys_append; [assumption|].
  simpl. congruence.
Qed.

Lemma merge_node_unique (l l' : label) (key : string) (g : graph) :
  unique_keys l g -> unique_keys l (snd (merge_node l' key g)).
Proof.
  intros U. unfold merge_node.
  destruct (match_node l' key g) as [p|] eqn:E; [assumption|].
  simpl. apply unique_keys_append; [assumption|].
  simpl. intros <- i m Hm Lm Hk.
  pose proof (find_from_none l' key (nodes g) 0 E i m Hm) as Hf.
  unfold is_node in Hf. rewrite Lm in Hf.
  assert (T : label_eqb l' l' = true) by now apply label_eqb_eq.
  rewrite T, Hk, String.eqb_refl in Hf. discriminate.
Qed.

Lemma link_errors_unique (l : label) (names : list string) (qc : nat) (g : graph) :
  unique_keys l g -> unique_keys l (link_errors qc names g).
Proof.
  revert g. induction names as [|name rest IH]; intros g U; simpl;
    [assumption|].
  pose proof (merge_node_unique l ErrorType name g U) as Hm.
  destruct (merge_node ErrorType name g) as [e g1]. simpl in Hm.
  apply IH. now apply (unique_keys_same_nodes l g1).
Qed.

Lemma store_question_results_unique (l : label)
    (results : list question_result) (c : nat) (g : graph) :
  l <> QuestionCorrection ->
  unique_keys l g -> unique_keys l (store_question_results c results g).
Proof.
  intros Hne. revert g. induction results as [|r rest IH]; intros g U;
    cbn [store_question_results create_node]; [assumption|].
  apply IH. apply link_errors_unique.
  apply (unique_keys_same_nodes l
           (snd (create_node QuestionCorrection (qc_id r) g)));
    [reflexivity|].
  apply create_node_unique; [congruence | assumption].
Qed.

Lemma store_correction_unique (l : label) (submission_id : string)
    (data : correction_data) (g : graph) :
  l <> Correction -> l <> QuestionCorrection ->
  unique_keys l g -> unique_keys l (store_correction submission_id data g).
Proof.
  intros H1 H2 U. unfold store_correction.
  destruct (match_node Submission submission_id g) as [s|]; [|assumption].
  cbn [create_node]. apply store_question_results_unique; [assumption|].
  apply (unique_keys_same_nodes l
           (snd (create_node Correction (correction_id data) g)));
    [reflexivity|].
  apply create_node_unique; [congruence | assumption].
Qed.

(** X14: the storage step never duplicates a reference node: if no two nodes
    of a label other than Correction and QuestionCorrection share a key
    before it runs, none do afterwards; in particular every reachable state
    holds at most one ErrorType node per error name, however many
    corrections name that error. *)
Theorem store_correction_keeps_keys_unique
    (l : label) (submission_id : string) (data : correction_data) (g : graph) :
  (l <> Correction -> l <> QuestionCorrection ->
   unique_keys l g -> unique_keys l (store_correction submission_id data g))
  /\ (reachable g -> unique_keys ErrorType g).
Proof.
  split; [apply store_correction_unique|].
  intros [ops ->].
  assert (G : forall ops g0, unique_keys ErrorType g0 ->
                unique_keys ErrorType (execute ops g0)).
  { clear. induction ops as [|op rest IH]; intros g0 U; simpl; [assumption|].
    apply IH. destruct op as [sid|sid d]; simpl.
    - apply create_node_unique; [discriminate | assumption].
    - apply store_correction_unique; [discriminate | discriminate | assumption]. }
  apply G. intros i j n m Hn. destruct i; discriminate.
Qed.

Lemma store_correction_keeps_keys_unique_witness :
  unique_keys ErrorType Samples.corrected_twice
  /\ count_nodes ErrorType Samples.corrected_twice = 2
  /\ count_rels HAS_ERROR Samples.corrected_twice = 3.
Proof.
  split; [|split; reflexivity].
  apply (proj2 (store_correction_keeps_keys_unique ErrorType "sub-1"
                  Samples.first_run Samples.corrected_twice)).
  eexists. reflexivity.
Defined.

End GraphUniqueFacts.

(** ** The forms and lists for students *)

Section NewStudentPageFacts.

Import NewStudentPage.
Local Open Scope string_scope.

Lemma removeStudent_nonempty (index : nat) (students : list student_row) :
  students <> [] -> removeStudent index students <> [].
Proof.
  intros H. unfold removeStudent.
  destruct (1 <? List.length students)%nat eqn:E; [|assumption].
  apply Nat.ltb_lt in E. unfold JSLib.filter_indexed.
  rewrite filter_from_skip by lia. rewrite Nat.sub_0_r.
  intros Hnil. apply (f_equal (@List.length student_row)) in Hnil.
  rewrite length_app, length_firstn, length_skipn in Hnil. simpl in Hnil. lia.
Qed.

Lemma step_nonempty (a : action) (students next : list student_row) :
  students <> [] -> step students a = Some next -> next <> [].
Proof.
  intros H. destruct a as [|index|index fv]; simpl.
  - intros E. injection E as <-. unfold addStudent.
    destruct students; [congruence | discriminate].
  - intros E. injection E as <-. now apply removeStudent_nonempty.
  - unfold updateStudent. destruct (nth_error students index); [|discriminate].
    intros E. injection E as <-. unfold JSLib.replace_at.
    intros Hnil. apply app_eq_nil in Hnil. destruct Hnil as [_ Hnil].
    discriminate.
Qed.

(** X15: the bulk form never runs out of rows: it starts with one row, and
    whatever sequence of adding, removing and editing rows the user
    performs, at least one row is left; removing the only row changes
    nothing. *)
Theorem bulk_rows_never_empty
    (actions : list action) (students final : list student_row) :
  (students <> [] -> perform actions students = Some final -> final <> [])
  /\ (perform actions initial_rows = Some final -> final <> [])
  /\ (forall index row, removeStudent index [row] = [row]).
Proof.
  assert (G : forall acts rows out,
            rows <> [] -> perform acts rows = Some out -> out <> []).
  { induction acts as [|a rest IH]; intros rows out Hne H; simpl in H.
    - now injection H as <-.
    - destruct (step rows a) as [next|] eqn:E; [|discriminate].
      apply (IH next out); [|assumption]. now apply (step_nonempty a rows). }
  split; [apply G|]. split; [apply G; discriminate|].
  reflexivity.
Qed.

Lemma bulk_rows_never_empty_witness :
  perform [Remove 0; Add; Remove 0; Remove 0] initial_rows = Some [blank_row]
  /\ [blank_row] <> [].
Proof.
  split; [reflexivity|].
  apply (proj1 (proj2 (bulk_rows_never_empty [Remove 0; Add; Remove 0; Remove 0]
                         initial_rows [blank_row]))).
  reflexivity.
Defined.

Lemma valid_test (s : student_row) :
  JSLib.nonempty (JSLib.trim (name s))
  && JSLib.nonempty (JSLib.trim (student_number s))
  && JSLib.nonempty (JSLib.trim (class_name s))
  = filled_in s.
Proof. unfold filled_in. now rewrite !truthy_trim. Qed.

(** X16: the bulk form sends exactly the rows whose name, number and class
    each hold a visible character, in their order, and drops the others
    without a message; it never sends an empty list: when no row is filled
    in it shows one message and sends nothing. *)
Theorem handleBulkSubmit_sends_filled_rows (students : list student_row) :
  match handleBulkSubmit students with
  | mutate payload =>
      payload = filter filled_in students
      /\ payload <> []
      /\ (forall s, In s payload <-> In s students /\ filled_in s = true)
  | toast_error message =>
      message = "Please add at least one valid student"
      /\ (forall s, In s students -> filled_in s = false)
  end.
Proof.
  unfold handleBulkSubmit.
  rewrite (filter_ext _ filled_in valid_test).
  destruct (filter filled_in students) as [|s0 rest] eqn:E;
    cbn [List.length Nat.eqb].
  - split; [reflexivity|]. intros s Hin.
    destruct (filled_in s) eqn:F; [|reflexivity].
    assert (Hf : In s (filter filled_in students))
      by (apply filter_In; now split).
    rewrite E in Hf. contradiction.
  - split; [reflexivity|]. split; [discriminate|].
    intros s. rewrite <- E. apply filter_In.
Qed.

End NewStudentPageFacts.

Section StudentsPageFacts.

Import StudentsPage.
Local Open Scope string_scope.

Lemma distinct_from_In (seen xs : list string) (x : string) :
  In x (distinct_from seen xs) <-> In x xs /\ ~ In x seen.
Proof.
  revert seen. induction xs as [|y rest IH]; intros seen; simpl.
  - tauto.
  - destruct (JSLib.array_includes seen y) eqn:E.
    + apply array_includes_In in E. rewrite IH. split.
      * tauto.
      * intros [[<-|H] Hn]; [contradiction | tauto].
    + assert (Hy : ~ In y seen).
      { intros H. apply array_includes_In in H. congruence. }
      simpl. rewrite IH. simpl. split.
      * intros [<-|[H Hn]]; [tauto|]. tauto.
      * intros [[<-|H] Hn]; [tauto|].
        destruct (String.eqb_spec y x) as [->|Hne]; [tauto|]. right. tauto.
Qed.

Lemma distinct_from_NoDup (seen xs : list string) : NoDup (distinct_from seen xs).
Proof.
  revert seen. induction xs as [|y rest IH]; intros seen; simpl.
  - constructor.
  - destruct (JSLib.array_includes seen y); [apply IH|].
    constructor; [|apply IH]. rewrite distinct_from_In. simpl. tauto.
Qed.

Lemma class_label_without (s : student) :
  without_class s -> class_label s = "Unassigned".
Proof. unfold class_label. intros [->| ->]; reflexivity. Qed.

(** X17: the class filter offers each class label once, and a label for
    every student, with "Unassigned" for a student without a class; choosing
    a class lists the students whose class is exactly that text, so choosing
    "Unassigned" never lists a student whose class is missing or empty. *)
Theorem unassigned_filter_misses_students_without_class
    (searchQuery : string) (students : list student) (s : student) :
  NoDup (classes students)
  /\ (forall c, In c (classes students)
                <-> exists t, In t students /\ class_label t = c)
  /\ (forall selectedClass,
        selectedClass <> "all" ->
        (In s (filteredStudents selectedClass searchQuery students)
         <-> In s students /\ matchesSearch searchQuery s = true
             /\ class_name s = Some selectedClass))
  /\ (In s students -> without_class s ->
      In "Unassigned" (classes students)
      /\ ~ In s (filteredStudents "Unassigned" searchQuery students)).
Proof.
  assert (Hc : forall c, In c (classes students)
                         <-> exists t, In t students /\ class_label t = c).
  { intros c. unfold classes. rewrite distinct_from_In, in_map_iff.
    simpl. split.
    - intros [(t & Ht & Hin) _]. now exists t.
    - intros (t & Hin & Ht). split; [now exists t | tauto]. }
  assert (Hf : forall selectedClass, selectedClass <> "all" ->
            (In s (filteredStudents selectedClass searchQuery students)
             <-> In s students /\ matchesSearch searchQuery s = true
                 /\ class_name s = Some selectedClass)).
  { intros sel Hsel. unfold filteredStudents, matchesClass.
    rewrite filter_In, andb_true_iff.
    apply String.eqb_neq in Hsel. rewrite Hsel. simpl.
    destruct (class_name s) as [c|].
    - rewrite String.eqb_eq. split.
      + intros (H1 & H2 & ->). auto.
      + intros (H1 & H2 & H3). injection H3 as ->. auto.
    - split; [intros (_ & _ & H); discriminate | intros (_ & _ & H); discriminate]. }
  split; [apply distinct_from_NoDup|]. split; [exact Hc|]. split; [exact Hf|].
  intros Hin Hw. split.
  - apply Hc. exists s. split; [assumption | now apply class_label_without].
  - rewrite Hf by discriminate. intros (_ & _ & H).
    destruct Hw as [Hw|Hw]; rewrite Hw in H; discriminate.
Qed.

End StudentsPageFacts.

(** ** Further worked examples *)

Section FormExamples.

Local Open Scope string_scope.

Lemma unassigned_filter_misses_students_without_class_witness :
  In FormSamples.lina [FormSamples.lina; FormSamples.marc]
  /\ StudentsPage.without_class FormSamples.lina
  /\ In "Unassigned" (StudentsPage.classes [FormSamples.lina; FormSamples.marc])
  /\ ~ In FormSamples.lina
        (StudentsPage.filteredStudents "Unassigned" ""
           [FormSamples.lina; FormSamples.marc]).
Proof.
  assert (H1 : In FormSamples.lina [FormSamples.lina; FormSamples.marc])
    by (now left).
  assert (H2 : StudentsPage.without_class FormSamples.lina) by (now left).
  split; [exact H1|]. split; [exact H2|].
  apply (proj2 (proj2 (proj2
           (unassigned_filter_misses_students_without_class ""
              [FormSamples.lina; FormSamples.marc] FormSamples.lina)))
           H1 H2).
Defined.

Example draft_form_names_second_question :
  NewExamPage.handleSubmit FormSamples.draft_form
  = NewExamPage.toast_error "Please complete question 2".
Proof. reflexivity. Qed.

Example ready_form_is_sent :
  NewExamPage.handleSubmit FormSamples.ready_form
  = NewExamPage.mutate
      (NewExamPage.mkPayload "Chapter 5" 6 "mathematics" 60
         [FormSamples.fraction_question]).
Proof. reflexivity. Qed.

Example half_filled_row_is_dropped :
  NewStudentPage.handleBulkSubmit
    [FormSamples.half_filled_row; FormSamples.filled_row]
  = NewStudentPage.mutate [FormSamples.filled_row].
Proof. reflexivity. Qed.

Example no_break_space_is_trimmed :
  JSLib.code_points EdgeSamples.no_break_space = [160%N]
  /\ JSLib.trim EdgeSamples.no_break_space = [].
Proof. split; reflexivity. Qed.

Example no_break_space_title_is_refused :
  NewExamPage.handleSubmit
    (NewExamPage.mkForm EdgeSamples.no_break_space 6 60
       [FormSamples.fraction_question])
  = NewExamPage.toast_error "Please enter a title".
Proof. reflexivity. Qed.

Example no_break_space_name_is_dropped :
  NewStudentPage.handleBulkSubmit
    [NewStudentPage.mkRow EdgeSamples.no_break_space "S-04" "CM2-B" 6;
     FormSamples.filled_row]
  = NewStudentPage.mutate [FormSamples.filled_row].
Proof. reflexivity. Qed.

Example trim_both_ends : JSLib.trim "  a b  " = [97; 32; 98]%N.
Proof. reflexivity. Qed.

Example classes_in_first_seen_order :
  StudentsPage.classes [FormSamples.marc; FormSamples.lina; FormSamples.marc]
  = ["CM2-A"; "Unassigned"].
Proof. reflexivity. Qed.

Example sidebar_on_exam_page :
  Sidebar.active_items "/exams/42" = ["/exams"].
Proof. reflexivity. Qed.

End FormExamples.

Section SidebarExamples.

Local Open Scope string_scope.

Lemma sidebar_highlights_at_most_one_witness :
  In "/students" Sidebar.navigation_hrefs
  /\ "/students" <> "/"
  /\ Sidebar.isActive ("/students" ++ "/new") "/students" = true
  /\ (List.length (Sidebar.active_items "/students/new") <= 1)%nat.
Proof.
  assert (H1 : In "/students" Sidebar.navigation_hrefs)
    by (right; right; now left).
  assert (H2 : "/students" <> "/") by discriminate.
  split; [exact H1|]. split; [exact H2|]. split.
  - apply (proj2 (proj2 (sidebar_highlights_at_most_one "/students/new"))
             "/students" "/new" H1 H2).
  - apply (proj1 (sidebar_highlights_at_most_one "/students/new")).
Defined.

End SidebarExamples.

(** ** The new-submission form *)

Section NewSubmissionPageFacts.

Import NewSubmissionPage.
Local Open Scope string_scope.




Lemma spread_length (answers : list slot) :
  List.length (spread answers) = List.length answers.
Proof. apply length_map. Qed.

Lemma assign_at_length (index : nat) (v : slot) (xs : list slot) :
  List.length (assign_at index v xs) = Nat.max (List.length xs) (S index).
Proof.
  unfold assign_at. rewrite !length_app, repeat_length. cbn [List.length].
  rewrite length_firstn, length_skipn. lia.
Qed.

Lemma assign_at_same (index : nat) (v : slot) (xs : list slot) :
  nth_error (assign_at index v xs) index = Some v.
Proof.
  unfold assign_at. rewrite app_assoc.
  rewrite nth_error_app2
    by (rewrite length_app, length_firstn, repeat_length; lia).
  rewrite length_app, length_firstn, repeat_length.
  replace (index - (Nat.min index (List.length xs) + (index - List.length xs)))%nat
    with 0%nat by lia.
  reflexivity.
Qed.

Lemma assign_at_before (index j : nat) (v : slot) (xs : list slot) :
  (j < index)%nat -> (j < List.length xs)%nat ->
  nth_error (assign_at index v xs) j = nth_error xs j.
Proof.
  intros Hj Hl. unfold assign_at.
  rewrite nth_error_app1 by (rewrite length_firstn; lia).
  rewrite nth_error_firstn.
  destruct (Nat.ltb_spec j index); [reflexivity|lia].
Qed.

Lemma assign_at_gap (index j : nat) (v : slot) (xs : list slot) :
  (List.length xs <= j)%nat -> (j < index)%nat ->
  nth_error (assign_at index v xs) j = Some hole.
Proof.
  intros Hl Hj. unfold assign_at.
  rewrite nth_error_app2 by (rewrite length_firstn; lia).
  rewrite length_firstn.
  rewrite nth_error_app1 by (rewrite repeat_length; lia).
  apply nth_error_repeat. lia.
Qed.

Lemma assign_at_after (index j : nat) (v : slot) (xs : list slot) :
  (index < j)%nat ->
  nth_error (assign_at index v xs) j = nth_error xs j.
Proof.
  intros Hj. unfold assign_at. rewrite app_assoc.
  rewrite nth_error_app2
    by (rewrite length_app, length_firstn, repeat_length; lia).
  rewrite length_app, length_firstn, repeat_length.
  destruct (j - (Nat.min index (List.length xs) + (index - List.length xs)))%nat
    as [|d] eqn:E; [lia|].
  cbn [nth_error]. rewrite nth_error_skipn. f_equal. lia.
Qed.

(** X19: typing an answer for question [index] stores it at that index of
    a copy of the array. Within the array the other elements are what
    reading them yields (a hole becomes [undefined]); past its end the
    array grows to [index + 1] elements and the indices between the old
    end and [index] are holes. *)
Theorem typeAnswer_assigns_by_index
    (index : nat) (id value : string) (answers : list slot) :
  let updated := typeAnswer index id value answers in
  List.length updated = Nat.max (List.length answers) (S index)
  /\ nth_error updated index = Some (object (mkAnswer id value))
  /\ (forall j, j <> index -> (j < List.length answers)%nat ->
        nth_error updated j = option_map read (nth_error answers j))
  /\ (forall j, (List.length answers <= j)%nat -> (j < index)%nat ->
        nth_error updated j = Some hole).
Proof.
  intros updated. subst updated. unfold typeAnswer.
  split; [|split; [|split]].
  - now rewrite assign_at_length, spread_length.
  - apply assign_at_same.
  - intros j Hj Hl. rewrite <- nth_error_map. fold (spread answers).
    destruct (Nat.lt_ge_cases j index) as [Hlt|Hge].
    + apply assign_at_before; [assumption|now rewrite spread_length].
    + apply assign_at_after. lia.
  - intros j Hl Hj. apply assign_at_gap; [now rewrite spread_length|assumption].
Qed.

Lemma typeAnswer_assigns_by_index_witness :
  typeAnswer 2 "q-3" "7" [object (mkAnswer "q-1" "")]
  = [object (mkAnswer "q-1" ""); hole; object (mkAnswer "q-3" "7")]
  /\ nth_error (typeAnswer 0 "q-1" "5"
                  [object (mkAnswer "q-1" ""); hole;
                   object (mkAnswer "q-3" "7")]) 1
     = option_map read
         (nth_error [object (mkAnswer "q-1" ""); hole;
                     object (mkAnswer "q-3" "7")] 1).
Proof.
  split; [reflexivity|].
  apply (proj1 (proj2 (proj2 (typeAnswer_assigns_by_index 0 "q-1" "5"
           [object (mkAnswer "q-1" ""); hole; object (mkAnswer "q-3" "7")])))
           1%nat); [discriminate|cbn; lia].
Defined.

Example skipped_question_then_typing_fails :
  handleSubmit
    (mkForm "exam-1" "stu-1" manual None
       (typeAnswer 0 "q-1" "5" (typeAnswer 2 "q-3" "7" [])))
  = toast_error "Failed to create submission".
Proof. reflexivity. Qed.

Example skipped_question_is_sent :
  handleSubmit
    (mkForm "exam-1" "stu-1" manual None (typeAnswer 2 "q-3" "7" []))
  = request_sent (createSubmission "exam-1" "stu-1" [mkAnswer "q-3" "7"]).
Proof. reflexivity. Qed.

Example blank_answers_are_sent_as_empty_list :
  handleSubmit
    (mkForm "exam-1" "stu-1" manual None
       [object (mkAnswer "q-1" ""); object (mkAnswer "q-2" "  ");
        object (mkAnswer "q-3" EdgeSamples.no_break_space)])
  = request_sent (createSubmission "exam-1" "stu-1" []).
Proof. reflexivity. Qed.

End NewSubmissionPageFacts.
